(** * LegalGuardian: the indexing pipeline of [notebooks/create_index.ipynb]

    A shallow embedding of the chunker ([chunk_documents]), of the batching
    of [E5Embedder.encode], of [create_improved_faiss_index], of
    [save_index_components] and of the verification cell, with the
    properties of the specification settled against them.

    Conventions.
    - A Python [str] is a Rocq [string] holding its UTF-8 bytes.
    - A Python [int] is a [Z]; [//] is [Z.div] (both round towards minus
      infinity) and raises [ZeroDivisionError] on a zero divisor.
    - A [dict] with string keys is a [gmap string _]; a missing key raises
      [KeyError].
    - The [while] loop of the chunker may not terminate: it is run with a
      fuel, and [OutOfFuel] is the outcome of a run that needs more. *)

From Stdlib Require Import ZArith Ascii String List Lia.
From Stdlib Require Import Numbers.DecimalString.
From stdpp Require Import base gmap strings list.

Local Open Scope string_scope.
Local Open Scope list_scope.
Local Open Scope Z_scope.

(** ** Python values *)

Module Py.

(** Exceptions the modelled code can raise. *)
Inductive exn : Type :=
| KeyError (key : string)
| ZeroDivisionError
| ValueError (msg : string)
| OSError (path : string)
| RuntimeError (path : string)
| UnpicklingError.

(** Outcome of running a piece of Python with a bounded number of loop
    iterations. *)
Inductive outcome (A : Type) : Type :=
| Return (a : A)
| Raise (e : exn)
| OutOfFuel.
Arguments Return {A} a.
Arguments Raise {A} e.
Arguments OutOfFuel {A}.

Definition bind {A B : Type} (k : A -> outcome B) (m : outcome A) : outcome B :=
  match m with
  | Return a => k a
  | Raise e => Raise e
  | OutOfFuel => OutOfFuel
  end.

(** [d[key]] on a dict. *)
Definition getitem {V : Type} (d : gmap string V) (key : string) : outcome V :=
  match d !! key with
  | Some v => Return v
  | None => Raise (KeyError key)
  end.

(** [a // b] *)
Definition floordiv (a b : Z) : outcome Z :=
  if Z.eqb b 0 then Raise ZeroDivisionError else Return (a / b).

(** [str(z)] for an int, as the f-string [{...}] formats it. *)
Definition str_of_int (z : Z) : string :=
  NilZero.string_of_int (Z.to_int z).

Definition between (lo hi b : Z) : bool := Z.leb lo b && Z.leb b hi.

(** Byte length of the whitespace character at the head of [s], [0%nat]
    when [s] does not start with one. The characters are those that
    [str.isspace] accepts, in their UTF-8 encoding: U+0009..U+000D,
    U+001C..U+0020, U+0085, U+00A0, U+1680, U+2000..U+200A, U+2028, U+2029,
    U+202F, U+205F, U+3000. *)
Definition space_len (s : string) : nat :=
  match s with
  | EmptyString => 0%nat
  | String c0 r0 =>
    let b0 := Z.of_N (N_of_ascii c0) in
    if between 9 13 b0 || between 28 32 b0 then 1%nat
    else match r0 with
    | EmptyString => 0%nat
    | String c1 r1 =>
      let b1 := Z.of_N (N_of_ascii c1) in
      if Z.eqb b0 194 && (Z.eqb b1 133 || Z.eqb b1 160) then 2%nat
      else match r1 with
      | EmptyString => 0%nat
      | String c2 _ =>
        let b2 := Z.of_N (N_of_ascii c2) in
        if Z.eqb b0 225 && Z.eqb b1 154 && Z.eqb b2 128 then 3%nat
        else if Z.eqb b0 226 && Z.eqb b1 128
                && (between 128 138 b2 || Z.eqb b2 168
                    || Z.eqb b2 169 || Z.eqb b2 175) then 3%nat
        else if Z.eqb b0 226 && Z.eqb b1 129 && Z.eqb b2 159 then 3%nat
        else if Z.eqb b0 227 && Z.eqb b1 128 && Z.eqb b2 128 then 3%nat
        else 0%nat
      end
    end
  end.

(** The word being read, closed: nothing when it is empty. *)
Definition flush (cur : string) : list string :=
  match cur with
  | EmptyString => []
  | _ => [cur]
  end.

(** [skip] counts the bytes still to drop of a whitespace character that
    takes several. *)
Fixpoint split_from (skip : nat) (cur : string) (s : string) : list string :=
  match s with
  | EmptyString => flush cur
  | String c s' =>
    match skip with
    | S k => split_from k cur s'
    | O =>
      match space_len s with
      | O => split_from 0 (cur +:+ String c EmptyString) s'
      | S k => flush cur ++ split_from k EmptyString s'
      end
    end
  end.

(** [s.split()]: the maximal runs of non-whitespace characters. *)
Definition split (s : string) : list string := split_from 0 EmptyString s.

(** [sep.join(l)] *)
Definition join (sep : string) (l : list string) : string := String.concat sep l.

(** A slice bound as Python normalises it against a length. *)
Definition slice_bound (len i : Z) : Z :=
  if Z.ltb i 0 then Z.max (i + len) 0 else Z.min i len.

(** [l[a:b]] *)
Definition slice {A : Type} (l : list A) (a b : Z) : list A :=
  let len := Z.of_nat (length l) in
  let a' := slice_bound len a in
  let b' := slice_bound len b in
  take (Z.to_nat (b' - a')) (drop (Z.to_nat a') l).

(** [len(l)] *)
Definition len {A : Type} (l : list A) : Z := Z.of_nat (length l).

(** Number of elements of [range(start, stop, step)], [step] not zero. *)
Definition range_count (start stop step : Z) : Z :=
  if Z.ltb 0 step then Z.max 0 ((stop - start + step - 1) / step)
  else Z.max 0 ((start - stop - step - 1) / (- step)).

(** [range(start, stop, step)], [step] not zero. *)
Definition range (start stop step : Z) : list Z :=
  (fun k => start + k * step) <$> seqZ 0 (range_count start stop step).

End Py.

Import Py.

#[global] Instance outcome_bind : MBind outcome := @bind.

(** ** The chunker: [chunk_documents] *)

(** A record of the JSON file: a dict from field names to strings. *)
Abbreviation document := (gmap string string).

Definition KEY_TEXT : string := "Текст".
Definition KEY_REFERENCE : string := "Ссылка".

(** The f-string [f"{reference} - Фрагмент {n}"]. *)
Definition fragment_reference (reference : string) (n : Z) : string :=
  reference +:+ " - Фрагмент " +:+ str_of_int n.

(** The two lists the function fills, [chunks] and [references]. *)
Definition acc : Type := list string * list string.

(** The loop [while current_position < len(words): ...], entered with
    [current_position] and the lists as they are then. *)
Fixpoint while_loop (fuel : nat) (words : list string) (reference : string)
    (max_chunk_size overlap : Z) (current_position : Z)
    (chunks references : list string) : outcome acc :=
  if Z.ltb current_position (len words) then
    match fuel with
    | O => OutOfFuel
    | S fuel' =>
      let end_position := Z.min (current_position + max_chunk_size) (len words) in
      let chunk := join " " (slice words current_position end_position) in
      q ← floordiv current_position max_chunk_size;
      let ref_info := fragment_reference reference (q + 1) in
      while_loop fuel' words reference max_chunk_size overlap
        (current_position + (max_chunk_size - overlap))
        (chunks ++ [chunk]) (references ++ [ref_info])
    end
  else Return (chunks, references).

(** The body of [for item in legal_data: ...]. *)
Definition for_body (fuel : nat) (max_chunk_size overlap : Z)
    (st : acc) (item : document) : outcome acc :=
  let '(chunks, references) := st in
  text ← getitem item KEY_TEXT;
  reference ← getitem item KEY_REFERENCE;
  if Z.leb (len (split text)) max_chunk_size then
    Return (chunks ++ [text], references ++ [reference])
  else
    let words := split text in
    while_loop fuel words reference max_chunk_size overlap 0 chunks references.

Fixpoint for_loop (fuel : nat) (max_chunk_size overlap : Z)
    (legal_data : list document) (st : acc) : outcome acc :=
  match legal_data with
  | [] => Return st
  | item :: rest =>
    st' ← for_body fuel max_chunk_size overlap st item;
    for_loop fuel max_chunk_size overlap rest st'
  end.

(** [chunk_documents(legal_data, max_chunk_size, overlap)]; every run of
    the [while] loop may make [fuel] iterations. *)
Definition chunk_documents (fuel : nat) (legal_data : list document)
    (max_chunk_size overlap : Z) : outcome acc :=
  for_loop fuel max_chunk_size overlap legal_data ([], []).

Definition DEFAULT_MAX_CHUNK_SIZE : Z := 256.
Definition DEFAULT_OVERLAP : Z := 50.

(** [{"Текст": text, "Ссылка": reference}] *)
Definition mk_document (text reference : string) : document :=
  <[KEY_TEXT := text]> (<[KEY_REFERENCE := reference]> ∅).

(** ** The embedder, the index and the files *)

(** [np.vstack(arrays)], the arrays given by their rows. *)
Definition vstack {vec : Type} (arrays : list (list vec)) : outcome (list vec) :=
  match arrays with
  | [] => Raise (ValueError "need at least one array to concatenate")
  | _ => Return (concat arrays)
  end.

(** A flat inner-product index: its dimension and the vectors added so
    far, in the order they were added; [ntotal] is their number and the
    position of a vector is its rank in [xb]. *)
Record IndexFlatIP (vec : Type) : Type := { d : Z; xb : list vec }.
Arguments d {vec} _.
Arguments xb {vec} _.

Definition new_index {vec : Type} (dimension : Z) : IndexFlatIP vec :=
  {| d := dimension; xb := [] |}.

(** [index.add(x)] *)
Definition add {vec : Type} (index : IndexFlatIP vec) (x : list vec) : IndexFlatIP vec :=
  {| d := d index; xb := xb index ++ x |}.

Definition ntotal {vec : Type} (index : IndexFlatIP vec) : Z := len (xb index).

(** The dict that [save_index_components] pickles. *)
Record bundle : Type := {
  chunks : list string;
  references : list string;
  embedder_model : string
}.

Inductive file (vec : Type) : Type :=
| FaissFile (index : IndexFlatIP vec)
| PickleFile (data : bundle)
| Directory.
Arguments FaissFile {vec} index.
Arguments PickleFile {vec} data.
Arguments Directory {vec}.

Definition BATCH_SIZE : Z := 8.

(** The f-string [f"passage: {text}"]. *)
Definition passage (text : string) : string := "passage: " +:+ text.

Section pipeline.
(** A row of an embedding array. *)
Context {vec : Type}.
(** The tokenizer, the model, [_average_pool], [normalize] and
    [.cpu().numpy()] on one batch of prefixed texts: the rows of the array
    they give, one for each text. *)
Context (embed_batch : list string -> list vec).
(** [embeddings.shape[1]] *)
Context (hidden_size : Z).
(** [os.path.join] *)
Context (path_join : string -> string -> string).
(** The directories above a path, the nearest first and a root last.
    Paths are absolute and normalised, one string for one file, and the
    root directories are in the file tree. *)
Context (ancestors : string -> list string).

(** [E5Embedder.encode(texts, batch_size)] *)
Definition encode (texts : list string) (batch_size : Z) : outcome (list vec) :=
  if Z.eqb batch_size 0 then Raise (ValueError "range() arg 3 must not be zero")
  else
    let all_embeddings :=
      (fun i =>
         let batch_texts := slice texts i (i + batch_size) in
         let processed_texts := passage <$> batch_texts in
         embed_batch processed_texts)
        <$> range 0 (len texts) batch_size in
    vstack all_embeddings.

(** [create_improved_faiss_index(legal_data, embedder, chunk_size, overlap)] *)
Definition create_improved_faiss_index (fuel : nat) (legal_data : list document)
    (chunk_size overlap : Z) : outcome (IndexFlatIP vec * list string * list string) :=
  '(chunks, references) ← chunk_documents fuel legal_data chunk_size overlap;
  embeddings ← encode chunks BATCH_SIZE;
  let dimension := hidden_size in
  let index := add (new_index dimension) embeddings in
  Return (index, chunks, references).

(** The files, by path. *)
Abbreviation filesystem := (gmap string (file vec)).

Definition exists_ (fs : filesystem) (path : string) : bool :=
  bool_decide (is_Some (fs !! path)).

(** [os.mkdir(path)], [parent] being the directory that holds [path]:
    [FileExistsError] when [path] is there, [FileNotFoundError] or
    [NotADirectoryError] when [parent] is not a directory; all are
    [OSError]. *)
Definition mkdir (fs : filesystem) (path : string) (parent : option string)
    : outcome filesystem :=
  if exists_ fs path then Raise (OSError path)
  else
    match parent with
    | Some head =>
      match fs !! head with
      | Some Directory => Return (<[path := Directory]> fs)
      | _ => Raise (OSError path)
      end
    | None => Raise (OSError path)
    end.

(** [os.makedirs(path)], [ups] being the directories above [path]: the
    directory above is made first when it is not there, then [path]. *)
Fixpoint makedirs (fs : filesystem) (path : string) (ups : list string)
    : outcome filesystem :=
  fs' ← match ups with
        | [] => Return fs
        | head :: ups' =>
          if exists_ fs head then Return fs else makedirs fs head ups'
        end;
  mkdir fs' path (head ups).

(** Opening [path], a name in the directory [dir], for writing, and writing
    [content] to it. It fails with [e] when [path] is a directory and when
    [dir] is not one; a file that is there is replaced. *)
Definition write_file (fs : filesystem) (dir path : string) (content : file vec)
    (e : exn) : outcome filesystem :=
  match fs !! path with
  | Some Directory => Raise e
  | _ =>
    match fs !! dir with
    | Some Directory => Return (<[path := content]> fs)
    | _ => Raise e
    end
  end.

(** [save_index_components(index, chunks, references, embedder_model_name,
    output_path)]: the files afterwards. [faiss.write_index] fails with a
    [RuntimeError], [open] with an [OSError]. *)
Definition save_index_components (fs : filesystem) (index : IndexFlatIP vec)
    (chunks references : list string) (embedder_model_name output_path : string)
    : outcome filesystem :=
  fs ← (if negb (exists_ fs output_path)
        then makedirs fs output_path (ancestors output_path)
        else Return fs);
  let index_path := path_join output_path "legal_index.faiss" in
  fs ← write_file fs output_path index_path (FaissFile index) (RuntimeError index_path);
  let data_path := path_join output_path "chunks_references.pkl" in
  write_file fs output_path data_path
    (PickleFile {| chunks := chunks; references := references;
                   embedder_model := embedder_model_name |})
    (OSError data_path).

(** The nearest directory above that is in the tree is a directory, not a
    file. *)
Fixpoint nearest_is_directory (fs : filesystem) (ups : list string) : bool :=
  match ups with
  | [] => false
  | head :: ups' =>
    match fs !! head with
    | Some Directory => true
    | Some _ => false
    | None => nearest_is_directory fs ups'
    end
  end.

(** A file tree in which the save goes through: neither file path is a
    directory, and the output directory is there, or it is missing below a
    directory (no path being above itself or above its own directory). *)
Definition save_ready (fs : filesystem) (output_path : string) : Prop :=
  let index_path := path_join output_path "legal_index.faiss" in
  let data_path := path_join output_path "chunks_references.pkl" in
  fs !! index_path <> Some Directory /\
  fs !! data_path <> Some Directory /\
  (fs !! output_path = Some Directory \/
   (fs !! output_path = None /\
    nearest_is_directory fs (ancestors output_path) = true /\
    NoDup (output_path :: ancestors output_path) /\
    (index_path ∉ output_path :: ancestors output_path) /\
    (data_path ∉ output_path :: ancestors output_path))).

(** [open(path, "rb")] followed by [pickle.load]. *)
Definition pickle_load (fs : filesystem) (path : string) : outcome bundle :=
  match fs !! path with
  | Some (PickleFile data) => Return data
  | Some (FaissFile _) => Raise UnpicklingError
  | Some Directory | None => Raise (OSError path)
  end.

(** What the verification cell prints, the file sizes left out: whether
    each file exists, and the number of chunks and the model name read
    from the pickle. *)
Record report : Type := {
  index_file_exists : bool;
  data_file_exists : bool;
  loaded : option (Z * string)
}.

Definition verification_cell (fs : filesystem) (output_dir : string) : outcome report :=
  let index_file := path_join output_dir "legal_index.faiss" in
  let data_file := path_join output_dir "chunks_references.pkl" in
  if exists_ fs index_file && exists_ fs data_file then
    data ← pickle_load fs data_file;
    Return {| index_file_exists := true; data_file_exists := true;
              loaded := Some (len (chunks data), embedder_model data) |}
  else
    Return {| index_file_exists := exists_ fs index_file;
              data_file_exists := exists_ fs data_file;
              loaded := None |}.
End pipeline.

(** ** Definitions used to state the properties *)

(** The chunk and the reference the loop body makes at window start [p]. *)
Definition chunk_at (words : list string) (max_chunk_size p : Z) : string :=
  join " " (slice words p (Z.min (p + max_chunk_size) (len words))).

Definition ref_at (reference : string) (max_chunk_size p : Z) : string :=
  fragment_reference reference (p / max_chunk_size + 1).

(** [item] has the two fields the chunker reads, with these values. *)
Definition has_fields (item : document) (d : string * string) : Prop :=
  item !! KEY_TEXT = Some d.1 /\ item !! KEY_REFERENCE = Some d.2.

(** What one document, given as (text, reference), adds to the two lists
    when the loop returns: pairs of a chunk and its reference. *)
Definition document_pieces (max_chunk_size overlap : Z) (d : string * string)
    : list (string * string) :=
  let words := split d.1 in
  if Z.leb (len words) max_chunk_size then [(d.1, d.2)]
  else (fun p => (chunk_at words max_chunk_size p, ref_at d.2 max_chunk_size p))
         <$> range 0 (len words) (max_chunk_size - overlap).

(** Words of the text of [item]: the iterations its [while] loop can need. *)
Definition words_of (item : document) : nat :=
  match item !! KEY_TEXT with
  | Some text => length (split text)
  | None => 0%nat
  end.

(** A fuel that covers every document of [legal_data]. *)
Definition fuel_for (legal_data : list document) : nat :=
  max_list (words_of <$> legal_data).

(** The batch of [texts] that position [i] falls in, for batches of [bs]. *)
Definition batch_of (texts : list string) (bs i : nat) : list string :=
  slice texts (Z.of_nat (bs * (i / bs))) (Z.of_nat (bs * (i / bs)) + Z.of_nat bs).

(** [ceil(a / b)] of the real quotient, as an integer. *)
Definition ceil_div (a b : Z) : Z := - ((- a) / b).

(** The example of the specification. *)
Definition example_document : document := mk_document "a b c d e" "Art.1".

(** A file tree with an output directory and its two files, and one whose
    data file and index file do not agree. *)
Definition example_join (a b : string) : string := a +:+ "/" +:+ b.

Definition example_saved : gmap string (file nat) :=
  <["out/chunks_references.pkl" :=
      PickleFile {| chunks := ["a b"]; references := ["Art.1"]; embedder_model := "e5" |}]>
    (<["out/legal_index.faiss" := FaissFile {| d := 1; xb := [7%nat] |}]>
       (<["out" := Directory]> ∅)).

Definition misaligned_bundle : bundle :=
  {| chunks := ["a"; "b"]; references := ["Art.1"]; embedder_model := "e5" |}.

Definition misaligned_index : IndexFlatIP nat :=
  {| d := 1; xb := [1%nat; 2%nat; 3%nat] |}.

Definition misaligned_files : gmap string (file nat) :=
  <["out/chunks_references.pkl" := PickleFile misaligned_bundle]>
    (<["out/legal_index.faiss" := FaissFile misaligned_index]> ∅).

(** ** Definitions used to state further properties *)

(** The lists a run starts from are only ever appended to. *)
Definition prepend (chunks references : list string) (st : acc) : outcome acc :=
  Return (chunks ++ st.1, references ++ st.2).

(** The words [words[p : min(p + max_chunk_size, len(words))]] that the loop
    body joins at window start [p]. *)
Definition window (words : list string) (max_chunk_size p : Z) : list string :=
  slice words p (Z.min (p + max_chunk_size) (len words)).

(** A string that can follow a word in the text that [" ".join] builds:
    nothing, or a space and more. *)
Definition after_word (rest : string) : Prop :=
  rest = "" \/ exists r, rest = String " " r.

(** No whitespace character starts inside [w] when [rest] follows it. *)
Fixpoint solid (w rest : string) : Prop :=
  match w with
  | EmptyString => True
  | String c w' => space_len (String c (w' +:+ rest)) = 0%nat /\ solid w' rest
  end.

(** A word as [split] gives them: not empty, and with no whitespace in it
    wherever it is joined. *)
Definition is_word (w : string) : Prop :=
  w <> "" /\ forall rest, after_word rest -> solid w rest.

(** The f-string [f"query: {query}"]. *)
Definition query_prefix (query : string) : string := "query: " +:+ query.

(** The names the indexing cells use. *)
Definition output_dir : string := "C:/Users/ten-t/Desktop/LegalGuardian/data/index".
Definition embedding_model_name : string := "intfloat/multilingual-e5-small".

Section queries_and_cells.
Context {vec : Type}.
Context (embed_batch : list string -> list vec).
Context (hidden_size : Z).
Context (path_join : string -> string -> string).
Context (ancestors : string -> list string).

(** [E5Embedder.encode_queries(queries, batch_size)]: one string or a list
    of strings; [batch_size] is not used. *)
Definition encode_queries (queries : string + list string) (batch_size : Z) : list vec :=
  let queries :=
    match queries with
    | inl query => [query]
    | inr queries => queries
    end in
  let processed_queries := query_prefix <$> queries in
  embed_batch processed_queries.

(** The cell that builds the index with the default parameters and saves
    it, [legal_data] being what [load_data] returned: the files afterwards. *)
Definition indexing_cell (fuel : nat) (fs : gmap string (file vec))
    (legal_data : list document) : outcome (gmap string (file vec)) :=
  '(index, chunks, references) ←
    create_improved_faiss_index embed_batch hidden_size fuel legal_data
      DEFAULT_MAX_CHUNK_SIZE DEFAULT_OVERLAP;
  save_index_components path_join ancestors fs index chunks references
    embedding_model_name output_dir.
End queries_and_cells.

(** Paths and file trees for examples: a root, and the directories above
    [/data/index]. *)
Definition example_ancestors (path : string) : list string :=
  if String.eqb path "/data/index" then ["/data"; "/"]
  else if String.eqb path "/data" then ["/"]
  else [].

Definition example_root : gmap string (file nat) := <["/" := Directory]> ∅.

Definition example_index : IndexFlatIP nat := {| d := 1; xb := [7%nat] |}.

(** The tree with the output directory of the notebook in it. *)
Definition example_output_tree : gmap string (file nat) := <[output_dir := Directory]> ∅.

(** A stand-in for the model in examples: the row of a text is its
    length in bytes. *)
Definition example_embed (batch : list string) : list nat := String.length <$> batch.

(** ** Facts on the Python values *)

Section range_facts.
Context (stop step : Z) (Hstep : 0 < step).

Lemma range_count_pos start :
  range_count start stop step = Z.max 0 ((stop - start + step - 1) / step).
Proof. unfold range_count. destruct (Z.ltb_spec 0 step); [done | lia]. Qed.

Lemma range_nil start : stop <= start -> range start stop step = [].
Proof.
  intros Hle. unfold range. rewrite range_count_pos, seqZ_nil; [done |].
  assert ((stop - start + step - 1) / step <= 0); [| lia].
  assert ((stop - start + step - 1) / step < 1); [| lia].
  apply Z.div_lt_upper_bound; lia.
Qed.

Lemma range_count_succ start :
  start < stop ->
  range_count start stop step = Z.succ (range_count (start + step) stop step).
Proof.
  intros Hlt. rewrite !range_count_pos.
  replace (stop - start + step - 1) with ((stop - (start + step) + step - 1) + 1 * step) by lia.
  rewrite Z.div_add by lia.
  assert (0 <= (stop - (start + step) + step - 1) / step); [| lia].
  apply Z.div_pos; lia.
Qed.

Lemma range_count_nonneg start : 0 <= range_count start stop step.
Proof. rewrite range_count_pos. lia. Qed.

Lemma range_cons start :
  start < stop -> range start stop step = start :: range (start + step) stop step.
Proof.
  intros Hlt. unfold range. rewrite (range_count_succ start Hlt).
  pose proof (range_count_nonneg (start + step)) as Hn.
  rewrite seqZ_cons by lia. rewrite Z.pred_succ. cbn [fmap list_fmap].
  f_equal; [lia |].
  rewrite <- (fmap_add_seqZ 1 0), <- list_fmap_compose.
  apply list_fmap_ext. intros _ k _. cbn. lia.
Qed.

Lemma lookup_range start (i : nat) (p : Z) :
  range start stop step !! i = Some p ->
  p = start + Z.of_nat i * step /\ start <= p < stop.
Proof.
  unfold range. rewrite list_lookup_fmap.
  destruct (seqZ 0 (range_count start stop step) !! i) as [k|] eqn:Hk; [| done].
  apply lookup_seqZ in Hk as [-> Hk]. cbn. intros [= <-].
  rewrite range_count_pos in Hk.
  split; [lia |].
  assert (Z.of_nat i < (stop - start + step - 1) / step) as Hi by lia.
  assert (Z.of_nat i + 1 <= (stop - start + step - 1) / step) as Hi' by lia.
  assert (step * (Z.of_nat i + 1) <= stop - start + step - 1).
  { etransitivity; [apply Z.mul_le_mono_nonneg_l; [lia | exact Hi'] |].
    apply Z.mul_div_le; lia. }
  nia.
Qed.

Lemma length_range start :
  Z.of_nat (length (range start stop step)) = range_count start stop step.
Proof.
  unfold range. rewrite length_fmap, length_seqZ.
  pose proof (range_count_nonneg start). lia.
Qed.
End range_facts.

(** [range(s, s, step)] is empty whatever the step. *)
Lemma range_same (start step : Z) : range start start step = [].
Proof.
  unfold range, range_count. rewrite seqZ_nil; [done |].
  destruct (Z.ltb_spec 0 step).
  - replace (start - start + step - 1) with (step - 1) by lia.
    rewrite Z.div_small by lia. lia.
  - replace (start - start - step - 1) with (- step - 1) by lia.
    destruct (decide (step = 0)) as [->|]; [by rewrite Z.div_0_r |].
    rewrite Z.div_small by lia. lia.
Qed.

(** ** The [while] loop *)

Lemma while_loop_unfold fuel words reference max_chunk_size overlap cp chunks references :
  while_loop fuel words reference max_chunk_size overlap cp chunks references =
  if Z.ltb cp (len words) then
    match fuel with
    | O => OutOfFuel
    | S fuel' =>
      q ← floordiv cp max_chunk_size;
      while_loop fuel' words reference max_chunk_size overlap
        (cp + (max_chunk_size - overlap))
        (chunks ++ [chunk_at words max_chunk_size cp])
        (references ++ [fragment_reference reference (q + 1)])
    end
  else Return (chunks, references).
Proof. destruct fuel; reflexivity. Qed.

Lemma floordiv_nonzero a b : b <> 0 -> floordiv a b = Return (a / b).
Proof. intros Hb. unfold floordiv. destruct (Z.eqb_spec b 0); [lia | done]. Qed.

Section while_loop_facts.
Context (words : list string) (reference : string) (max_chunk_size overlap : Z).

Local Abbreviation step := (max_chunk_size - overlap).
Local Abbreviation run fuel :=
  (while_loop fuel words reference max_chunk_size overlap).

(** The window start only moves forward by a positive step, so the loop
    returns once the fuel covers the distance to the end; the windows it
    visits are those of [range(cp, len(words), step)]. *)
Lemma while_loop_run fuel cp chunks references :
  max_chunk_size <> 0 -> 0 < step ->
  len words - cp <= Z.of_nat fuel ->
  run fuel cp chunks references =
  Return (chunks ++ (chunk_at words max_chunk_size <$> range cp (len words) step),
          references ++ (ref_at reference max_chunk_size <$> range cp (len words) step)).
Proof.
  intros Hmax Hstep. revert cp chunks references.
  induction fuel as [|fuel IH]; intros cp chunks references Hfuel;
    rewrite while_loop_unfold; destruct (Z.ltb_spec cp (len words)) as [Hlt|Hge].
  - lia.
  - rewrite range_nil by lia. by rewrite !app_nil_r.
  - rewrite floordiv_nonzero by done. cbn [mbind outcome_bind bind].
    rewrite IH by lia. rewrite (range_cons _ _ Hstep cp Hlt).
    cbn [fmap list_fmap]. by rewrite <- !app_assoc.
  - rewrite range_nil by lia. by rewrite !app_nil_r.
Qed.

(** With a step that is not positive the window start never reaches the
    end: no amount of fuel is enough. *)
Lemma while_loop_diverges fuel cp chunks references :
  max_chunk_size <> 0 -> step <= 0 -> cp < len words ->
  run fuel cp chunks references = OutOfFuel.
Proof.
  intros Hmax Hstep. revert cp chunks references.
  induction fuel as [|fuel IH]; intros cp chunks references Hlt;
    rewrite while_loop_unfold; destruct (Z.ltb_spec cp (len words)); try lia.
  - done.
  - rewrite floordiv_nonzero by done. cbn [mbind outcome_bind bind].
    apply IH. lia.
Qed.

(** A zero [max_chunk_size] makes the first iteration divide by zero. *)
Lemma while_loop_zero_division fuel cp chunks references :
  max_chunk_size = 0 -> cp < len words ->
  run (S fuel) cp chunks references = Raise ZeroDivisionError.
Proof.
  intros -> Hlt. rewrite while_loop_unfold.
  destruct (Z.ltb_spec cp (len words)); [done | lia].
Qed.

(** A run that enters the loop and returns had a non-zero
    [max_chunk_size] and a positive step. *)
Lemma while_loop_Return_params fuel cp chunks references st :
  run fuel cp chunks references = Return st -> cp < len words ->
  max_chunk_size <> 0 /\ 0 < step.
Proof.
  intros Hrun Hlt.
  assert (max_chunk_size <> 0) as Hmax.
  { intros Hzero. destruct fuel as [|fuel].
    - rewrite while_loop_unfold in Hrun.
      destruct (Z.ltb_spec cp (len words)); [done | lia].
    - by rewrite while_loop_zero_division in Hrun. }
  split; [done |]. destruct (Z.lt_ge_cases 0 step) as [|Hstep]; [done |].
  by rewrite while_loop_diverges in Hrun by lia.
Qed.

(** More fuel does not change a result. *)
Lemma while_loop_fuel_mono fuel fuel' cp chunks references :
  (fuel <= fuel')%nat ->
  run fuel cp chunks references <> OutOfFuel ->
  run fuel' cp chunks references = run fuel cp chunks references.
Proof.
  revert fuel' cp chunks references.
  induction fuel as [|fuel IH]; intros fuel' cp chunks references Hle Hrun;
    rewrite (while_loop_unfold fuel');
    rewrite while_loop_unfold in Hrun |- *;
    destruct (Z.ltb_spec cp (len words)); try done.
  destruct fuel' as [|fuel']; [lia |].
  destruct (floordiv cp max_chunk_size) as [q| |]; cbn [mbind outcome_bind bind] in *; try done.
  apply IH; [lia | done].
Qed.
End while_loop_facts.

(** ** One document, then all of them *)

Lemma getitem_Some {V} (d : gmap string V) key v :
  d !! key = Some v -> getitem d key = Return v.
Proof. unfold getitem. by intros ->. Qed.

Lemma has_fields_words_of item d :
  has_fields item d -> words_of item = length (split d.1).
Proof. intros [Ht _]. unfold words_of. by rewrite Ht. Qed.

Lemma words_of_le_fuel_for item legal_data :
  item ∈ legal_data -> (words_of item <= fuel_for legal_data)%nat.
Proof.
  intros Hin. apply max_list_elem_of_le, list_elem_of_fmap. eauto.
Qed.

Section chunker_facts.
Context (max_chunk_size overlap : Z).

Lemma for_body_short fuel chunks references item text reference :
  has_fields item (text, reference) ->
  len (split text) <= max_chunk_size ->
  for_body fuel max_chunk_size overlap (chunks, references) item =
  Return (chunks ++ [text], references ++ [reference]).
Proof.
  intros [Ht Hr] Hle. cbn [fst snd] in Ht, Hr. unfold for_body.
  rewrite (getitem_Some _ _ _ Ht), (getitem_Some _ _ _ Hr).
  cbn [mbind outcome_bind bind].
  destruct (Z.leb_spec (len (split text)) max_chunk_size); [done | lia].
Qed.

Lemma for_body_long fuel chunks references item text reference :
  has_fields item (text, reference) ->
  max_chunk_size < len (split text) ->
  for_body fuel max_chunk_size overlap (chunks, references) item =
  while_loop fuel (split text) reference max_chunk_size overlap 0 chunks references.
Proof.
  intros [Ht Hr] Hlt. cbn [fst snd] in Ht, Hr. unfold for_body.
  rewrite (getitem_Some _ _ _ Ht), (getitem_Some _ _ _ Hr).
  cbn [mbind outcome_bind bind].
  destruct (Z.leb_spec (len (split text)) max_chunk_size); [lia | done].
Qed.

Context (Hmax : max_chunk_size <> 0) (Hstep : overlap < max_chunk_size).

Lemma for_body_run fuel chunks references item d :
  has_fields item d ->
  (length (split d.1) <= fuel)%nat ->
  for_body fuel max_chunk_size overlap (chunks, references) item =
  Return (chunks ++ (document_pieces max_chunk_size overlap d).*1,
          references ++ (document_pieces max_chunk_size overlap d).*2).
Proof.
  destruct d as [text reference]. intros Hitem Hfuel. unfold document_pieces.
  cbn [fst snd] in *.
  destruct (Z.leb_spec (len (split text)) max_chunk_size) as [Hle|Hlt].
  - by rewrite (for_body_short _ _ _ _ _ _ Hitem Hle).
  - rewrite (for_body_long _ _ _ _ _ _ Hitem Hlt).
    rewrite while_loop_run by (unfold len; lia).
    by rewrite <- !list_fmap_compose.
Qed.

Lemma for_loop_run fuel legal_data docs chunks references :
  Forall2 has_fields legal_data docs ->
  (fuel_for legal_data <= fuel)%nat ->
  for_loop fuel max_chunk_size overlap legal_data (chunks, references) =
  Return (chunks ++ (docs ≫= document_pieces max_chunk_size overlap).*1,
          references ++ (docs ≫= document_pieces max_chunk_size overlap).*2).
Proof.
  intros Hdocs. revert chunks references.
  induction Hdocs as [|item d legal_data docs Hitem _ IH]; intros chunks references Hfuel.
  - cbn. by rewrite !app_nil_r.
  - cbn [for_loop]. rewrite (for_body_run _ _ _ _ _ Hitem).
    + cbn [mbind outcome_bind bind]. rewrite IH.
      * rewrite bind_cons, !fmap_app, !app_assoc. done.
      * unfold fuel_for in *. cbn in Hfuel. lia.
    + rewrite <- (has_fields_words_of _ _ Hitem).
      unfold fuel_for in Hfuel. cbn in Hfuel. lia.
Qed.

Lemma for_body_total fuel st item :
  (words_of item <= fuel)%nat ->
  for_body fuel max_chunk_size overlap st item <> OutOfFuel.
Proof.
  destruct st as [chunks references]. intros Hfuel.
  destruct (item !! KEY_TEXT) as [text|] eqn:Ht.
  - destruct (item !! KEY_REFERENCE) as [reference|] eqn:Hr.
    + rewrite (for_body_run _ _ _ _ (text, reference)); [done | done |].
      cbn. unfold words_of in Hfuel. by rewrite Ht in Hfuel.
    + unfold for_body, getitem. rewrite Ht, Hr. done.
  - unfold for_body, getitem. rewrite Ht. done.
Qed.

Lemma for_loop_total fuel legal_data st :
  (fuel_for legal_data <= fuel)%nat ->
  for_loop fuel max_chunk_size overlap legal_data st <> OutOfFuel.
Proof.
  revert st. induction legal_data as [|item legal_data IH]; intros st Hfuel; [done |].
  unfold fuel_for in *. cbn in Hfuel. cbn [for_loop].
  pose proof (for_body_total fuel st item ltac:(lia)) as Hbody.
  destruct (for_body fuel max_chunk_size overlap st item); cbn [mbind outcome_bind bind];
    [apply IH; lia | done | done].
Qed.
End chunker_facts.

(** Whatever the parameters, a call that returns has added the pieces of
    the documents, in their order. *)
Lemma for_body_Return fuel max_chunk_size overlap chunks references item d st :
  has_fields item d ->
  for_body fuel max_chunk_size overlap (chunks, references) item = Return st ->
  st = (chunks ++ (document_pieces max_chunk_size overlap d).*1,
        references ++ (document_pieces max_chunk_size overlap d).*2).
Proof.
  destruct d as [text reference]. intros Hitem Hrun.
  destruct (Z.le_gt_cases (len (split text)) max_chunk_size) as [Hle|Hlt].
  - rewrite (for_body_short _ _ _ _ _ _ _ _ Hitem Hle) in Hrun.
    injection Hrun as <-. unfold document_pieces. cbn [fst snd].
    destruct (Z.leb_spec (len (split text)) max_chunk_size); [done | lia].
  - rewrite (for_body_long _ _ _ _ _ _ _ _ Hitem Hlt) in Hrun.
    destruct (decide (0 < len (split text))) as [Hwords|Hnone].
    + destruct (while_loop_Return_params _ _ _ _ _ _ _ _ _ Hrun Hwords) as [Hmax Hstep].
      pose proof (while_loop_fuel_mono (split text) reference max_chunk_size overlap
                    fuel (fuel `max` length (split text)) 0 chunks references
                    ltac:(lia) ltac:(by rewrite Hrun)) as Hmore.
      rewrite Hrun, while_loop_run in Hmore by (unfold len; lia).
      injection Hmore as <-. unfold document_pieces. cbn [fst snd].
      destruct (Z.leb_spec (len (split text)) max_chunk_size); [lia |].
      by rewrite <- !list_fmap_compose.
    + rewrite while_loop_unfold in Hrun.
      destruct (Z.ltb_spec 0 (len (split text))); [lia |]. injection Hrun as <-.
      unfold document_pieces. cbn [fst snd].
      destruct (Z.leb_spec (len (split text)) max_chunk_size); [lia |].
      replace (len (split text)) with 0 by (unfold len in *; lia).
      rewrite range_same. cbn. by rewrite !app_nil_r.
Qed.

Lemma for_loop_Return fuel max_chunk_size overlap legal_data docs chunks references st :
  Forall2 has_fields legal_data docs ->
  for_loop fuel max_chunk_size overlap legal_data (chunks, references) = Return st ->
  st = (chunks ++ (docs ≫= document_pieces max_chunk_size overlap).*1,
        references ++ (docs ≫= document_pieces max_chunk_size overlap).*2).
Proof.
  intros Hdocs. revert chunks references.
  induction Hdocs as [|item d legal_data docs Hitem _ IH]; intros chunks references Hrun.
  - cbn in Hrun. injection Hrun as <-. cbn. by rewrite !app_nil_r.
  - cbn [for_loop] in Hrun.
    destruct (for_body fuel max_chunk_size overlap (chunks, references) item)
      as [st'| |] eqn:Hbody; cbn [mbind outcome_bind bind] in Hrun; try done.
    apply (for_body_Return _ _ _ _ _ _ d) in Hbody as ->; [| done].
    apply IH in Hrun as ->. by rewrite bind_cons, !fmap_app, !app_assoc.
Qed.

(** ** Slices and batches *)

Lemma slice_nonneg {A} (l : list A) (a b : Z) :
  0 <= a -> 0 <= b ->
  slice l a b = take (Z.to_nat (Z.min b (len l)) - Z.to_nat (Z.min a (len l)))
                     (drop (Z.to_nat (Z.min a (len l))) l).
Proof.
  intros Ha Hb. unfold slice, slice_bound, len.
  destruct (Z.ltb_spec a 0); [lia |]. destruct (Z.ltb_spec b 0); [lia |].
  f_equal. lia.
Qed.

Lemma lookup_slice {A} (l : list A) (a b : nat) (j : nat) :
  (a + j < b)%nat -> slice l (Z.of_nat a) (Z.of_nat b) !! j = l !! (a + j)%nat.
Proof.
  intros Hj. rewrite slice_nonneg by lia. unfold len.
  destruct (decide (a + j < length l)%nat) as [Hin|Hout].
  - rewrite lookup_take_lt by lia. rewrite lookup_drop. f_equal. lia.
  - rewrite (lookup_ge_None_2 l) by lia.
    apply lookup_ge_None_2. rewrite length_take, length_drop. lia.
Qed.

Lemma length_slice {A} (l : list A) (a b : nat) :
  length (slice l (Z.of_nat a) (Z.of_nat b)) = (Nat.min b (length l) - Nat.min a (length l))%nat.
Proof.
  rewrite slice_nonneg by lia. unfold len. rewrite length_take, length_drop. lia.
Qed.

(** Blocks of [bs] elements, the last one possibly shorter: element [i] of
    their concatenation is element [i mod bs] of block [i / bs]. *)
Lemma lookup_concat_blocks {A} (bs : nat) (blocks : list (list A)) (i : nat) :
  (0 < bs)%nat ->
  (forall k b, blocks !! k = Some b ->
     (length b <= bs)%nat /\ (S k < length blocks -> length b = bs)%nat) ->
  concat blocks !! i = blocks !! (i / bs)%nat ≫= (.!! (i mod bs)%nat).
Proof.
  intros Hbs. revert i. induction blocks as [|b blocks IH]; intros i Hblocks.
  - done.
  - cbn [concat]. destruct (Hblocks 0%nat b eq_refl) as [Hle Hfull].
    destruct (decide (i < bs)%nat) as [Hi|Hi].
    + rewrite Nat.div_small, Nat.mod_small by done. cbn.
      destruct (decide (i < length b)%nat).
      * by rewrite lookup_app_l.
      * rewrite lookup_app_r by lia. rewrite (lookup_ge_None_2 b) by lia.
        destruct blocks as [|b' blocks]; [done |].
        cbn in Hfull. lia.
    + assert (i / bs = S ((i - bs) / bs))%nat as ->.
      { replace i with ((i - bs) + 1 * bs)%nat at 1 by lia.
        rewrite Nat.div_add by lia. lia. }
      assert (i mod bs = (i - bs) mod bs)%nat as ->.
      { replace i with ((i - bs) + 1 * bs)%nat at 1 by lia.
        by rewrite Nat.Div0.mod_add. }
      cbn [lookup list_lookup]. rewrite <- IH.
      * destruct blocks as [|b' blocks].
        { cbn. rewrite app_nil_r. apply lookup_ge_None_2. lia. }
        rewrite lookup_app_r by (cbn in Hfull; lia).
        f_equal. cbn in Hfull. lia.
      * intros k b' Hk. destruct (Hblocks (S k) b' Hk) as [? Hf].
        split; [done |]. intros. apply Hf. cbn. lia.
Qed.

Lemma lookup_range_Some (start stop step : Z) (k : nat) :
  0 < step -> start + Z.of_nat k * step < stop ->
  range start stop step !! k = Some (start + Z.of_nat k * step).
Proof.
  intros Hstep Hk. unfold range. rewrite list_lookup_fmap, lookup_seqZ_lt; [done |].
  rewrite range_count_pos by done.
  assert (Z.of_nat k + 1 <= (stop - start + step - 1) / step); [| lia].
  rewrite <- (Z.div_mul (Z.of_nat k + 1) step) by lia.
  apply Z.div_le_mono; lia.
Qed.

(** ** [encode] keeps the order of the texts *)

Section encode_facts.
Context {vec : Type} (embed_batch : list string -> list vec).
Hypothesis embed_batch_rows : forall b, length (embed_batch b) = length b.

Lemma batch_of_lookup texts bs i :
  (0 < bs)%nat -> batch_of texts bs i !! (i mod bs)%nat = texts !! i.
Proof.
  intros Hbs. unfold batch_of. rewrite <- Nat2Z.inj_add.
  pose proof (Nat.mod_upper_bound i bs ltac:(lia)).
  rewrite lookup_slice by lia. f_equal.
  pose proof (Nat.div_mod_eq i bs). lia.
Qed.

Lemma encode_blocks texts (bs : nat) k blk :
  (0 < bs)%nat ->
  ((fun p => embed_batch (passage <$> slice texts p (p + Z.of_nat bs)))
     <$> range 0 (len texts) (Z.of_nat bs)) !! k = Some blk ->
  (k * bs < length texts)%nat /\
  blk = embed_batch (passage <$> slice texts (Z.of_nat (k * bs)) (Z.of_nat (k * bs) + Z.of_nat bs)) /\
  length blk = (Nat.min (k * bs + bs) (length texts) - k * bs)%nat.
Proof.
  intros Hbs. rewrite list_lookup_fmap.
  destruct (range 0 (len texts) (Z.of_nat bs) !! k) as [p|] eqn:Hp; [| done].
  apply lookup_range in Hp as [-> Hp]; [| lia]. unfold len in Hp.
  cbn. intros [= <-].
  replace (0 + Z.of_nat k * Z.of_nat bs) with (Z.of_nat (k * bs)) by lia.
  split; [lia |]. split; [done |].
  rewrite embed_batch_rows, length_fmap, <- Nat2Z.inj_add, length_slice. lia.
Qed.

(** [encode] returns one row for each text, and the row at position [i]
    is the row of [texts[i]] in the embedding of its batch. *)
Lemma encode_rows texts (bs : nat) :
  (0 < bs)%nat -> texts <> [] ->
  exists embeddings,
    encode embed_batch texts (Z.of_nat bs) = Return embeddings /\
    length embeddings = length texts /\
    forall i, embeddings !! i =
              if decide (i < length texts)%nat
              then embed_batch (passage <$> batch_of texts bs i) !! (i mod bs)%nat
              else None.
Proof.
  intros Hbs Htexts. unfold encode.
  destruct (Z.eqb_spec (Z.of_nat bs) 0) as [|_]; [lia |].
  set (blocks := _ <$> range 0 (len texts) (Z.of_nat bs)).
  assert (blocks <> []) as Hne.
  { subst blocks. rewrite range_cons; [done | lia |].
    unfold len. destruct texts; [done | cbn; lia]. }
  assert (forall i, concat blocks !! i =
            if decide (i < length texts)%nat
            then embed_batch (passage <$> batch_of texts bs i) !! (i mod bs)%nat
            else None) as Hlookup.
  { intros i. rewrite (lookup_concat_blocks bs); [| done |]; cycle 1.
    { intros k blk Hk. split.
      - apply encode_blocks in Hk as (? & _ & ->); [lia | done].
      - intros Hnext. apply lookup_lt_is_Some in Hnext as [blk' Hk'].
        apply encode_blocks in Hk as (? & _ & ->); [| done].
        apply encode_blocks in Hk' as (? & _ & _); [lia | done]. }
    pose proof (Nat.div_mod_eq i bs) as Hdm.
    pose proof (Nat.mod_upper_bound i bs ltac:(lia)) as Hmod.
    destruct (blocks !! (i / bs)%nat) as [blk|] eqn:Hblk.
    - pose proof Hblk as Hblk'.
      apply encode_blocks in Hblk' as (Hlt & -> & Hlen); [| done]. cbn.
      replace (i / bs * bs)%nat with (bs * (i / bs))%nat in * by lia.
      fold (batch_of texts bs i). case_decide; [done |].
      apply lookup_ge_None_2. unfold batch_of. lia.
    - case_decide; [| done]. exfalso.
      subst blocks. rewrite list_lookup_fmap, lookup_range_Some in Hblk;
        [done | lia | unfold len; nia]. }
  exists (concat blocks). split; [| split; [| done]].
  - unfold vstack. destruct blocks; done.
  - destruct (Nat.lt_trichotomy (length (concat blocks)) (length texts)) as [Hlt|[Heq|Hgt]];
      [| done |].
    + pose proof (Hlookup (length (concat blocks))) as Hl.
      rewrite lookup_ge_None_2 in Hl by lia. case_decide; [| lia].
      symmetry in Hl. apply lookup_ge_None_1 in Hl.
      rewrite embed_batch_rows, length_fmap in Hl.
      pose proof (lookup_lt_is_Some_2 texts (length (concat blocks)) ltac:(lia)) as [t Ht].
      rewrite <- (batch_of_lookup texts bs) in Ht by done.
      apply lookup_lt_Some in Ht. lia.
    + pose proof (Hlookup (length texts)) as Hl.
      case_decide; [lia |]. apply lookup_ge_None_1 in Hl. lia.
Qed.
Lemma encode_Return texts (bs : nat) embeddings :
  (0 < bs)%nat ->
  encode embed_batch texts (Z.of_nat bs) = Return embeddings ->
  length embeddings = length texts /\
  forall i, embeddings !! i =
            if decide (i < length texts)%nat
            then embed_batch (passage <$> batch_of texts bs i) !! (i mod bs)%nat
            else None.
Proof.
  intros Hbs Hrun. destruct (decide (texts = [])) as [->|Htexts].
  - unfold encode in Hrun. destruct (Z.eqb_spec (Z.of_nat bs) 0); [lia |].
    change (len (@nil string)) with 0 in Hrun. by rewrite range_same in Hrun.
  - destruct (encode_rows texts bs Hbs Htexts) as (embeddings' & Hrun' & Hrows).
    rewrite Hrun in Hrun'. by injection Hrun' as <-.
Qed.
End encode_facts.

Lemma create_improved_faiss_index_Return {vec} (embed_batch : list string -> list vec)
    hidden_size fuel legal_data chunk_size overlap index chunks references :
  create_improved_faiss_index embed_batch hidden_size fuel legal_data chunk_size overlap =
    Return (index, chunks, references) ->
  chunk_documents fuel legal_data chunk_size overlap = Return (chunks, references) /\
  encode embed_batch chunks BATCH_SIZE = Return (xb index).
Proof.
  unfold create_improved_faiss_index.
  destruct (chunk_documents fuel legal_data chunk_size overlap) as [[cs rs]| |];
    cbn [mbind outcome_bind bind]; try done.
  destruct (encode embed_batch cs BATCH_SIZE) as [embeddings| |] eqn:Hencode;
    cbn [mbind outcome_bind bind]; try done.
  intros [= <- <- <-]. by rewrite Hencode.
Qed.

Lemma ceil_div_pos a b : 0 < b -> ceil_div a b = (a + b - 1) / b.
Proof.
  intros Hb. unfold ceil_div.
  pose proof (Z.div_mod (- a) b ltac:(lia)) as H1.
  pose proof (Z.mod_pos_bound (- a) b Hb) as H2.
  apply (Z.div_unique _ _ _ (b - 1 - (- a) mod b)); [left |]; lia.
Qed.

Lemma length_chunks_of_long_document (words : list string) max_chunk_size overlap :
  0 < max_chunk_size - overlap -> 0 < len words ->
  len (range 0 (len words) (max_chunk_size - overlap)) =
  ceil_div (len words) (max_chunk_size - overlap).
Proof.
  intros Hstep Hwords. unfold len at 1.
  rewrite length_range, range_count_pos, ceil_div_pos by done.
  replace (len words - 0 + (max_chunk_size - overlap) - 1)
    with (len words + (max_chunk_size - overlap) - 1) by lia.
  assert (0 <= (len words + (max_chunk_size - overlap) - 1) / (max_chunk_size - overlap)); [| lia].
  apply Z.div_pos; lia.
Qed.

Lemma for_loop_short fuel max_chunk_size overlap legal_data docs chunks references :
  Forall2 has_fields legal_data docs ->
  Forall (fun d => len (split d.1) <= max_chunk_size) docs ->
  for_loop fuel max_chunk_size overlap legal_data (chunks, references) =
  Return (chunks ++ docs.*1, references ++ docs.*2).
Proof.
  intros Hdocs. revert chunks references.
  induction Hdocs as [|item [text reference] legal_data docs Hitem _ IH];
    intros chunks references Hshort.
  - cbn. by rewrite !app_nil_r.
  - apply Forall_cons in Hshort as [Hle Hshort]. cbn [for_loop].
    rewrite (for_body_short _ _ _ _ _ _ _ _ Hitem Hle). cbn [mbind outcome_bind bind].
    rewrite IH by done. cbn [fmap list_fmap fst snd]. by rewrite <- !app_assoc.
Qed.

Lemma for_loop_diverges fuel max_chunk_size overlap legal_data docs st :
  Forall2 has_fields legal_data docs ->
  1 <= max_chunk_size -> max_chunk_size <= overlap ->
  Exists (fun d => max_chunk_size < len (split d.1)) docs ->
  for_loop fuel max_chunk_size overlap legal_data st = OutOfFuel.
Proof.
  intros Hdocs Hmax Hover. revert st.
  induction Hdocs as [|item [text reference] legal_data docs Hitem _ IH];
    intros [chunks references] Hlong.
  - by apply Exists_nil in Hlong.
  - cbn [for_loop].
    destruct (Z.le_gt_cases (len (split text)) max_chunk_size) as [Hle|Hlt].
    + rewrite (for_body_short _ _ _ _ _ _ _ _ Hitem Hle). cbn [mbind outcome_bind bind].
      apply IH. apply Exists_cons in Hlong as [Hhead|Htail]; [cbn [fst] in Hhead; lia | done].
    + rewrite (for_body_long _ _ _ _ _ _ _ _ Hitem Hlt).
      rewrite while_loop_diverges by lia. done.
Qed.

Lemma document_pieces_nonempty max_chunk_size overlap d :
  0 <= overlap < max_chunk_size -> document_pieces max_chunk_size overlap d <> [].
Proof.
  intros Hover. unfold document_pieces.
  destruct (Z.leb_spec (len (split d.1)) max_chunk_size); [done |].
  rewrite range_cons by lia. done.
Qed.

Lemma lookup_pieces max_chunk_size overlap docs (i : nat) chunk reference :
  (docs ≫= document_pieces max_chunk_size overlap).*1 !! i = Some chunk ->
  (docs ≫= document_pieces max_chunk_size overlap).*2 !! i = Some reference ->
  exists d, d ∈ docs /\ (chunk, reference) ∈ document_pieces max_chunk_size overlap d.
Proof.
  rewrite !list_lookup_fmap.
  destruct ((docs ≫= document_pieces max_chunk_size overlap) !! i) as [[c r]|] eqn:Hi;
    [| done].
  cbn. intros [= <-] [= <-].
  apply list_elem_of_lookup_2, list_elem_of_bind in Hi as (d & Hin & Hd). eauto.
Qed.

Lemma while_loop_frame fuel words reference max_chunk_size overlap cp
    chunks0 references0 chunks references :
  while_loop fuel words reference max_chunk_size overlap cp
    (chunks0 ++ chunks) (references0 ++ references) =
  while_loop fuel words reference max_chunk_size overlap cp chunks references
    ≫= prepend chunks0 references0.
Proof.
  revert cp chunks references.
  induction fuel as [|fuel IH]; intros cp chunks references;
    rewrite !(while_loop_unfold _ words); destruct (Z.ltb cp (len words)); try done.
  destruct (floordiv cp max_chunk_size) as [q| |]; cbn [mbind outcome_bind bind]; try done.
  by rewrite <- !app_assoc, IH.
Qed.

Lemma for_body_frame fuel max_chunk_size overlap chunks references item :
  for_body fuel max_chunk_size overlap (chunks, references) item =
  for_body fuel max_chunk_size overlap ([], []) item ≫= prepend chunks references.
Proof.
  unfold for_body.
  destruct (getitem item KEY_TEXT) as [text| |]; cbn [mbind outcome_bind bind]; try done.
  destruct (getitem item KEY_REFERENCE) as [reference| |];
    cbn [mbind outcome_bind bind]; try done.
  destruct (Z.leb (len (split text)) max_chunk_size); [done |].
  rewrite <- (app_nil_r chunks) at 1. rewrite <- (app_nil_r references) at 1.
  apply while_loop_frame.
Qed.

Lemma for_loop_frame fuel max_chunk_size overlap legal_data chunks0 references0
    chunks references :
  for_loop fuel max_chunk_size overlap legal_data
    (chunks0 ++ chunks, references0 ++ references) =
  for_loop fuel max_chunk_size overlap legal_data (chunks, references)
    ≫= prepend chunks0 references0.
Proof.
  revert chunks references.
  induction legal_data as [|item legal_data IH]; intros chunks references; [done |].
  cbn [for_loop].
  rewrite (for_body_frame _ _ _ (chunks0 ++ chunks)), (for_body_frame _ _ _ chunks).
  destruct (for_body fuel max_chunk_size overlap ([], []) item) as [[cs rs]| |];
    cbn [mbind outcome_bind bind prepend fst snd]; try done.
  by rewrite <- !app_assoc, IH.
Qed.

Lemma for_loop_app fuel max_chunk_size overlap legal_data1 legal_data2 st :
  for_loop fuel max_chunk_size overlap (legal_data1 ++ legal_data2) st =
  for_loop fuel max_chunk_size overlap legal_data1 st
    ≫= for_loop fuel max_chunk_size overlap legal_data2.
Proof.
  revert st. induction legal_data1 as [|item legal_data1 IH]; intros st; [done |].
  cbn [app for_loop].
  destruct (for_body fuel max_chunk_size overlap st item) as [st'| |];
    cbn [mbind outcome_bind bind]; try done.
Qed.

Lemma chunk_documents_app_eq :
  forall (fuel : nat) (legal_data1 legal_data2 : list document)
         (max_chunk_size overlap : Z),
    chunk_documents fuel (legal_data1 ++ legal_data2) max_chunk_size overlap =
    '(chunks1, references1) ← chunk_documents fuel legal_data1 max_chunk_size overlap;
    '(chunks2, references2) ← chunk_documents fuel legal_data2 max_chunk_size overlap;
    Return (chunks1 ++ chunks2, references1 ++ references2).
Proof.
  intros fuel legal_data1 legal_data2 max_chunk_size overlap.
  unfold chunk_documents. rewrite for_loop_app.
  destruct (for_loop fuel max_chunk_size overlap legal_data1 ([], []))
    as [[chunks1 references1]| |]; cbn [mbind outcome_bind bind]; try done.
  rewrite <- (app_nil_r chunks1) at 1. rewrite <- (app_nil_r references1) at 1.
  rewrite for_loop_frame.
  by destruct (for_loop fuel max_chunk_size overlap legal_data2 ([], []))
    as [[chunks2 references2]| |].
Qed.

(** The chunks and references of one record, in a call on a list that has
    it between two others. *)
Lemma chunk_documents_insert fuel max_chunk_size overlap legal_data1 legal_data2 item
    chunks1 references1 chunks2 references2 cs rs :
  chunk_documents fuel legal_data1 max_chunk_size overlap = Return (chunks1, references1) ->
  chunk_documents fuel legal_data2 max_chunk_size overlap = Return (chunks2, references2) ->
  for_body fuel max_chunk_size overlap ([], []) item = Return (cs, rs) ->
  chunk_documents fuel (legal_data1 ++ item :: legal_data2) max_chunk_size overlap =
  Return (chunks1 ++ cs ++ chunks2, references1 ++ rs ++ references2).
Proof.
  intros Hrun1 Hrun2 Hitem.
  change (item :: legal_data2) with ([item] ++ legal_data2).
  rewrite !chunk_documents_app_eq, Hrun1, Hrun2.
  unfold chunk_documents at 1. cbn [for_loop]. rewrite Hitem. done.
Qed.

(** ** The chunker: properties *)

(** C7. A document of at most [max_chunk_size] words adds exactly one
    chunk, its text as it is, and one reference, the original one with no
    fragment suffix: the loop body does so on any lists, and a call of
    [chunk_documents] on a list that has the record anywhere in it returns
    the chunks and references of the records before it, then this one chunk
    and this one reference, then those of the records after it. *)
Theorem short_document_single_chunk :
  forall (fuel : nat) (max_chunk_size overlap : Z) (chunks references : list string)
         (item : document) (text reference : string),
    has_fields item (text, reference) ->
    len (split text) <= max_chunk_size ->
    for_body fuel max_chunk_size overlap (chunks, references) item =
      Return (chunks ++ [text], references ++ [reference]) /\
    forall (legal_data1 legal_data2 : list document)
           (chunks1 references1 chunks2 references2 : list string),
      chunk_documents fuel legal_data1 max_chunk_size overlap =
        Return (chunks1, references1) ->
      chunk_documents fuel legal_data2 max_chunk_size overlap =
        Return (chunks2, references2) ->
      chunk_documents fuel (legal_data1 ++ item :: legal_data2) max_chunk_size overlap =
      Return (chunks1 ++ [text] ++ chunks2, references1 ++ [reference] ++ references2).
Proof.
  intros fuel max_chunk_size overlap chunks references item text reference Hitem Hle.
  split.
  - by apply for_body_short.
  - intros legal_data1 legal_data2 chunks1 references1 chunks2 references2 Hrun1 Hrun2.
    apply chunk_documents_insert; [done | done |].
    by rewrite (for_body_short _ _ _ _ _ _ _ _ Hitem Hle).
Qed.

Lemma short_document_single_chunk_witness :
  has_fields example_document ("a b c d e", "Art.1") /\
  len (split "a b c d e") <= 10 /\
  for_body 0 10 2 (["x"], ["Art.0"]) example_document =
    Return (["x"; "a b c d e"], ["Art.0"; "Art.1"]) /\
  chunk_documents 0 [mk_document "x y" "Art.0"] 10 2 = Return (["x y"], ["Art.0"]) /\
  chunk_documents 0 [mk_document "z" "Art.2"] 10 2 = Return (["z"], ["Art.2"]) /\
  chunk_documents 0
    ([mk_document "x y" "Art.0"] ++ example_document :: [mk_document "z" "Art.2"]) 10 2 =
    Return (["x y"] ++ ["a b c d e"] ++ ["z"], ["Art.0"] ++ ["Art.1"] ++ ["Art.2"]).
Proof.
  assert (has_fields example_document ("a b c d e", "Art.1")) as Hitem
    by (split; reflexivity).
  assert (len (split "a b c d e") <= 10) as Hle by (vm_compute; discriminate).
  assert (chunk_documents 0 [mk_document "x y" "Art.0"] 10 2 = Return (["x y"], ["Art.0"]))
    as Hrun1 by reflexivity.
  assert (chunk_documents 0 [mk_document "z" "Art.2"] 10 2 = Return (["z"], ["Art.2"]))
    as Hrun2 by reflexivity.
  destruct (short_document_single_chunk 0 10 2 ["x"] ["Art.0"] example_document
              "a b c d e" "Art.1" Hitem Hle) as [Hbody Hcall].
  split; [exact Hitem |]. split; [exact Hle |]. split; [exact Hbody |].
  split; [exact Hrun1 |]. split; [exact Hrun2 |].
  exact (Hcall _ _ _ _ _ _ Hrun1 Hrun2).
Defined.

(** C2, as the code has it. A document of [N > max_chunk_size] words, with
    [0 <= overlap < max_chunk_size], adds exactly
    [ceil(N / (max_chunk_size - overlap))] chunks and as many references,
    one for each window start [0, step, 2 step, ...] below [N]: the loop
    body adds them to any lists, and a call of [chunk_documents] on a list
    that has the record anywhere in it returns them between the chunks and
    references of the records before it and those of the records after
    it. *)
Theorem long_document_chunk_count :
  forall (fuel : nat) (max_chunk_size overlap : Z) (chunks references : list string)
         (item : document) (text reference : string),
    has_fields item (text, reference) ->
    max_chunk_size < len (split text) ->
    0 <= overlap < max_chunk_size ->
    (length (split text) <= fuel)%nat ->
    exists cs rs : list string,
      len cs = ceil_div (len (split text)) (max_chunk_size - overlap) /\
      len rs = ceil_div (len (split text)) (max_chunk_size - overlap) /\
      for_body fuel max_chunk_size overlap (chunks, references) item =
        Return (chunks ++ cs, references ++ rs) /\
      forall (legal_data1 legal_data2 : list document)
             (chunks1 references1 chunks2 references2 : list string),
        chunk_documents fuel legal_data1 max_chunk_size overlap =
          Return (chunks1, references1) ->
        chunk_documents fuel legal_data2 max_chunk_size overlap =
          Return (chunks2, references2) ->
        chunk_documents fuel (legal_data1 ++ item :: legal_data2) max_chunk_size overlap =
        Return (chunks1 ++ cs ++ chunks2, references1 ++ rs ++ references2).
Proof.
  intros fuel max_chunk_size overlap chunks references item text reference
    Hitem Hlong Hover Hfuel.
  pose proof (length_chunks_of_long_document (split text) max_chunk_size overlap
                ltac:(lia) ltac:(lia)) as Hcount.
  assert (forall cs0 rs0,
            for_body fuel max_chunk_size overlap (cs0, rs0) item =
            Return (cs0 ++ (chunk_at (split text) max_chunk_size
                              <$> range 0 (len (split text)) (max_chunk_size - overlap)),
                    rs0 ++ (ref_at reference max_chunk_size
                              <$> range 0 (len (split text)) (max_chunk_size - overlap))))
    as Hbody.
  { intros cs0 rs0. rewrite (for_body_long _ _ _ _ _ _ _ _ Hitem Hlong).
    apply while_loop_run; unfold len; lia. }
  exists (chunk_at (split text) max_chunk_size
            <$> range 0 (len (split text)) (max_chunk_size - overlap)),
         (ref_at reference max_chunk_size
            <$> range 0 (len (split text)) (max_chunk_size - overlap)).
  split; [| split; [| split]].
  - unfold len in Hcount |- *. rewrite length_fmap. exact Hcount.
  - unfold len in Hcount |- *. rewrite length_fmap. exact Hcount.
  - apply Hbody.
  - intros legal_data1 legal_data2 chunks1 references1 chunks2 references2 Hrun1 Hrun2.
    apply chunk_documents_insert; [done | done |]. apply (Hbody [] []).
Qed.

Lemma long_document_chunk_count_witness :
  has_fields example_document ("a b c d e", "Art.1") /\
  3 < len (split "a b c d e") /\
  0 <= 1 < 3 /\
  (length (split "a b c d e") <= 5)%nat /\
  chunk_documents 5 [mk_document "x y" "Art.0"] 3 1 = Return (["x y"], ["Art.0"]) /\
  chunk_documents 5 [mk_document "z" "Art.2"] 3 1 = Return (["z"], ["Art.2"]) /\
  exists cs rs : list string,
    len cs = ceil_div (len (split "a b c d e")) (3 - 1) /\
    len rs = ceil_div (len (split "a b c d e")) (3 - 1) /\
    for_body 5 3 1 ([], []) example_document = Return ([] ++ cs, [] ++ rs) /\
    chunk_documents 5
      ([mk_document "x y" "Art.0"] ++ example_document :: [mk_document "z" "Art.2"]) 3 1 =
    Return (["x y"] ++ cs ++ ["z"], ["Art.0"] ++ rs ++ ["Art.2"]).
Proof.
  assert (has_fields example_document ("a b c d e", "Art.1")) as Hitem
    by (split; reflexivity).
  assert (3 < len (split "a b c d e")) as Hlong by reflexivity.
  assert (0 <= 1 < 3) as Hover by lia.
  assert (length (split "a b c d e") <= 5)%nat as Hfuel by (vm_compute; lia).
  assert (chunk_documents 5 [mk_document "x y" "Art.0"] 3 1 = Return (["x y"], ["Art.0"]))
    as Hrun1 by reflexivity.
  assert (chunk_documents 5 [mk_document "z" "Art.2"] 3 1 = Return (["z"], ["Art.2"]))
    as Hrun2 by reflexivity.
  repeat (split; [assumption |]).
  destruct (long_document_chunk_count 5 3 1 [] [] example_document "a b c d e" "Art.1"
              Hitem Hlong Hover Hfuel) as (cs & rs & Hcs & Hrs & Hbody & Hcall).
  exists cs, rs. split; [exact Hcs |]. split; [exact Hrs |]. split; [exact Hbody |].
  exact (Hcall _ _ _ _ _ _ Hrun1 Hrun2).
Defined.

(** C2, as the specification has it, fails: five words with
    [max_chunk_size = 3] and [overlap = 1] give three chunks, and
    [ceil((5 - 1) / (3 - 1))] is two. *)
Lemma chunk_count_formula_counterexample :
  3 < len (split "a b c d e") /\
  chunk_documents 5 [example_document] 3 1 =
    Return (["a b c"; "c d e"; "e"],
            ["Art.1 - Фрагмент 1"; "Art.1 - Фрагмент 1"; "Art.1 - Фрагмент 2"]) /\
  len ["a b c"; "c d e"; "e"] <> ceil_div (len (split "a b c d e") - 1) (3 - 1).
Proof. split; [reflexivity |]. split; [reflexivity |]. vm_compute. discriminate. Qed.

(** C3, as the code has it. The example of the specification gives three
    chunks: the window starting at word 4 is not dropped, and the fragment
    index of the window starting at word 2 is [2 // 3 + 1 = 1]. *)
Theorem example_chunks :
  forall fuel : nat,
    chunk_documents (3 + fuel) [example_document] 3 1 =
    Return (["a b c"; "c d e"; "e"],
            ["Art.1 - Фрагмент 1"; "Art.1 - Фрагмент 1"; "Art.1 - Фрагмент 2"]).
Proof. intros [|fuel]; reflexivity. Qed.

(** C3, as the specification has it, fails: no run returns the two chunks
    and the two references of the example. *)
Lemma example_chunks_counterexample :
  ~ exists fuel : nat,
      chunk_documents fuel [example_document] 3 1 =
      Return (["a b c"; "c d e"], ["Art.1 - Fragment 1"; "Art.1 - Fragment 2"]).
Proof.
  intros [fuel Hrun]. destruct fuel as [|[|[|[|fuel]]]]; vm_compute in Hrun; discriminate.
Qed.

(** C5, as the code has it. A document whose text is empty raises no
    error. With [max_chunk_size >= 0] it counts as a short text and is
    kept as it is: one chunk, the empty string, with the original
    reference. Only a negative [max_chunk_size] sends it to the [while]
    loop, which then adds nothing. The loop body does so on any lists, and
    a call of [chunk_documents] on a list that has the record anywhere in it
    returns, between the chunks and references of the records before it and
    those of the records after it, this one chunk and reference (nothing
    for a negative [max_chunk_size]). *)
Theorem empty_document_chunks :
  forall (fuel : nat) (max_chunk_size overlap : Z) (chunks references : list string)
         (item : document) (reference : string),
    has_fields item ("", reference) ->
    (0 <= max_chunk_size ->
     for_body fuel max_chunk_size overlap (chunks, references) item =
       Return (chunks ++ [""], references ++ [reference]) /\
     forall (legal_data1 legal_data2 : list document)
            (chunks1 references1 chunks2 references2 : list string),
       chunk_documents fuel legal_data1 max_chunk_size overlap =
         Return (chunks1, references1) ->
       chunk_documents fuel legal_data2 max_chunk_size overlap =
         Return (chunks2, references2) ->
       chunk_documents fuel (legal_data1 ++ item :: legal_data2) max_chunk_size overlap =
       Return (chunks1 ++ [""] ++ chunks2, references1 ++ [reference] ++ references2)) /\
    (max_chunk_size < 0 ->
     for_body fuel max_chunk_size overlap (chunks, references) item =
       Return (chunks, references) /\
     forall (legal_data1 legal_data2 : list document)
            (chunks1 references1 chunks2 references2 : list string),
       chunk_documents fuel legal_data1 max_chunk_size overlap =
         Return (chunks1, references1) ->
       chunk_documents fuel legal_data2 max_chunk_size overlap =
         Return (chunks2, references2) ->
       chunk_documents fuel (legal_data1 ++ item :: legal_data2) max_chunk_size overlap =
       Return (chunks1 ++ chunks2, references1 ++ references2)).
Proof.
  intros fuel max_chunk_size overlap chunks references item reference Hitem.
  assert (max_chunk_size < 0 ->
          forall cs0 rs0,
            for_body fuel max_chunk_size overlap (cs0, rs0) item = Return (cs0, rs0))
    as Hnone.
  { intros Hmax cs0 rs0. rewrite (for_body_long _ _ _ _ _ _ _ _ Hitem) by done.
    by rewrite while_loop_unfold. }
  split; intros Hmax; (split; [| intros legal_data1 legal_data2 chunks1 references1
                                   chunks2 references2 Hrun1 Hrun2]).
  - by apply for_body_short.
  - apply chunk_documents_insert; [done | done |].
    by rewrite (for_body_short _ _ _ _ _ _ _ _ Hitem).
  - by apply Hnone.
  - change (chunks1 ++ chunks2) with (chunks1 ++ [] ++ chunks2).
    change (references1 ++ references2) with (references1 ++ [] ++ references2).
    apply chunk_documents_insert; [done | done |]. by apply Hnone.
Qed.

Lemma empty_document_chunks_witness :
  has_fields (mk_document "" "Art.1") ("", "Art.1") /\
  (0 <= DEFAULT_MAX_CHUNK_SIZE /\
   for_body 0 DEFAULT_MAX_CHUNK_SIZE DEFAULT_OVERLAP ([], []) (mk_document "" "Art.1") =
     Return ([] ++ [""], [] ++ ["Art.1"]) /\
   chunk_documents 0 [mk_document "x y" "Art.0"] DEFAULT_MAX_CHUNK_SIZE DEFAULT_OVERLAP =
     Return (["x y"], ["Art.0"]) /\
   chunk_documents 0 [mk_document "z" "Art.2"] DEFAULT_MAX_CHUNK_SIZE DEFAULT_OVERLAP =
     Return (["z"], ["Art.2"]) /\
   chunk_documents 0
     ([mk_document "x y" "Art.0"] ++ mk_document "" "Art.1" :: [mk_document "z" "Art.2"])
     DEFAULT_MAX_CHUNK_SIZE DEFAULT_OVERLAP =
     Return (["x y"] ++ [""] ++ ["z"], ["Art.0"] ++ ["Art.1"] ++ ["Art.2"])) /\
  (-1 < 0 /\
   for_body 0 (-1) (-2) ([], []) (mk_document "" "Art.1") = Return ([], []) /\
   chunk_documents 0 [mk_document "" "Art.0"] (-1) (-2) = Return ([], []) /\
   chunk_documents 0 [] (-1) (-2) = Return ([], []) /\
   chunk_documents 0 ([mk_document "" "Art.0"] ++ mk_document "" "Art.1" :: []) (-1) (-2) =
     Return ([] ++ [], [] ++ [])).
Proof.
  assert (has_fields (mk_document "" "Art.1") ("", "Art.1")) as Hitem
    by (split; reflexivity).
  assert (0 <= DEFAULT_MAX_CHUNK_SIZE) as Hmax by (vm_compute; discriminate).
  assert (-1 < 0) as Hneg by lia.
  assert (chunk_documents 0 [mk_document "x y" "Art.0"] DEFAULT_MAX_CHUNK_SIZE
            DEFAULT_OVERLAP = Return (["x y"], ["Art.0"])) as Hrun1 by reflexivity.
  assert (chunk_documents 0 [mk_document "z" "Art.2"] DEFAULT_MAX_CHUNK_SIZE
            DEFAULT_OVERLAP = Return (["z"], ["Art.2"])) as Hrun2 by reflexivity.
  assert (chunk_documents 0 [mk_document "" "Art.0"] (-1) (-2) = Return ([], []))
    as Hrun3 by reflexivity.
  assert (chunk_documents 0 [] (-1) (-2) = Return ([], [])) as Hrun4 by reflexivity.
  destruct (proj1 (empty_document_chunks 0 DEFAULT_MAX_CHUNK_SIZE DEFAULT_OVERLAP [] []
                     (mk_document "" "Art.1") "Art.1" Hitem) Hmax) as [Hbody Hcall].
  destruct (proj2 (empty_document_chunks 0 (-1) (-2) [] []
                     (mk_document "" "Art.1") "Art.1" Hitem) Hneg) as [Hbody' Hcall'].
  split; [exact Hitem |]. split.
  - split; [exact Hmax |]. split; [exact Hbody |].
    split; [exact Hrun1 |]. split; [exact Hrun2 |].
    exact (Hcall _ _ _ _ _ _ Hrun1 Hrun2).
  - split; [exact Hneg |]. split; [exact Hbody' |].
    split; [exact Hrun3 |]. split; [exact Hrun4 |].
    exact (Hcall' _ _ _ _ _ _ Hrun3 Hrun4).
Defined.

(** C5, as the specification has it, fails: with the default parameters a
    document with an empty text gives one chunk, not none. *)
Lemma empty_document_counterexample :
  chunk_documents 0 [mk_document "" "Art.1"] DEFAULT_MAX_CHUNK_SIZE DEFAULT_OVERLAP =
  Return ([""], ["Art.1"]).
Proof. reflexivity. Qed.

(** C6, as the code has it. For a document of more than [max_chunk_size]
    words, whenever the chunker returns from it, the chunk of the window
    starting at [window_start] has the reference
    [reference - Фрагмент n] with [n = window_start // max_chunk_size + 1];
    the label is the Russian word the source writes. The chunker does
    return when [0 <= overlap < max_chunk_size]. *)
Theorem fragment_reference_format :
  forall (fuel : nat) (max_chunk_size overlap : Z) (chunks references : list string)
         (item : document) (text reference : string),
    has_fields item (text, reference) ->
    max_chunk_size < len (split text) ->
    let window_starts := range 0 (len (split text)) (max_chunk_size - overlap) in
    let emitted : acc :=
      (chunks ++
         ((fun window_start =>
             join " " (slice (split text) window_start
                         (Z.min (window_start + max_chunk_size) (len (split text)))))
            <$> window_starts),
       references ++
         ((fun window_start =>
             reference +:+ " - Фрагмент " +:+ str_of_int (window_start / max_chunk_size + 1))
            <$> window_starts)) in
    (forall st,
       for_body fuel max_chunk_size overlap (chunks, references) item = Return st ->
       st = emitted) /\
    (0 <= overlap < max_chunk_size -> (length (split text) <= fuel)%nat ->
     for_body fuel max_chunk_size overlap (chunks, references) item = Return emitted).
Proof.
  intros fuel max_chunk_size overlap chunks references item text reference
    Hitem Hlong window_starts emitted.
  assert (emitted =
          (chunks ++ (document_pieces max_chunk_size overlap (text, reference)).*1,
           references ++ (document_pieces max_chunk_size overlap (text, reference)).*2))
    as Hemitted.
  { unfold document_pieces. cbn [fst snd].
    destruct (Z.leb_spec (len (split text)) max_chunk_size); [lia |].
    by rewrite <- !list_fmap_compose. }
  split.
  - intros st Hrun. rewrite Hemitted. by apply (for_body_Return fuel _ _ _ _ item).
  - intros Hover Hfuel. rewrite (for_body_long _ _ _ _ _ _ _ _ Hitem Hlong).
    apply while_loop_run; unfold len; lia.
Qed.

Lemma fragment_reference_format_witness :
  has_fields example_document ("a b c d e", "Art.1") /\
  3 < len (split "a b c d e") /\
  0 <= 1 < 3 /\
  (length (split "a b c d e") <= 5)%nat /\
  for_body 5 3 1 ([], []) example_document =
    Return (["a b c"; "c d e"; "e"],
            ["Art.1 - Фрагмент 1"; "Art.1 - Фрагмент 1"; "Art.1 - Фрагмент 2"]) /\
  (["a b c"; "c d e"; "e"],
   ["Art.1 - Фрагмент 1"; "Art.1 - Фрагмент 1"; "Art.1 - Фрагмент 2"]) =
  ([] ++
     ((fun window_start =>
         join " " (slice (split "a b c d e") window_start
                     (Z.min (window_start + 3) (len (split "a b c d e")))))
        <$> range 0 (len (split "a b c d e")) (3 - 1)),
   [] ++
     ((fun window_start => "Art.1" +:+ " - Фрагмент " +:+ str_of_int (window_start / 3 + 1))
        <$> range 0 (len (split "a b c d e")) (3 - 1))).
Proof.
  assert (has_fields example_document ("a b c d e", "Art.1")) as Hitem
    by (split; reflexivity).
  assert (3 < len (split "a b c d e")) as Hlong by reflexivity.
  assert (0 <= 1 < 3) as Hover by lia.
  assert (length (split "a b c d e") <= 5)%nat as Hfuel by (vm_compute; lia).
  repeat (split; [assumption |]).
  destruct (fragment_reference_format 5 3 1 [] [] example_document "a b c d e" "Art.1"
              Hitem Hlong) as [Hreturned Hreturns].
  split; [exact (Hreturns Hover Hfuel) |].
  exact (Hreturned _ (Hreturns Hover Hfuel)).
Defined.

(** C6, as the specification has it, fails on the label: the first
    reference of the example is not [Art.1 - Fragment 1]. *)
Lemma fragment_reference_counterexample :
  3 < len (split "a b c d e") /\
  (exists cs rs,
     chunk_documents 5 [example_document] 3 1 = Return (cs, rs) /\
     rs !! 0%nat = Some "Art.1 - Фрагмент 1") /\
  "Art.1 - Фрагмент 1" <> "Art.1" +:+ " - Fragment " +:+ str_of_int (0 / 3 + 1).
Proof.
  split; [reflexivity |]. split; [| vm_compute; discriminate].
  eexists _, _. split; reflexivity.
Qed.

(** C10. With [max_chunk_size >= 1] and [0 <= overlap < max_chunk_size]
    the step [max_chunk_size - overlap] is positive and [chunk_documents]
    terminates: as many iterations of the [while] loop as the longest
    document has words are enough for every document, and the call then
    returns its two lists when every record has its two fields (it raises
    [KeyError] otherwise). *)
Theorem chunk_documents_terminates :
  forall (legal_data : list document) (max_chunk_size overlap : Z) (fuel : nat),
    1 <= max_chunk_size ->
    0 <= overlap < max_chunk_size ->
    (fuel_for legal_data <= fuel)%nat ->
    0 < max_chunk_size - overlap /\
    chunk_documents fuel legal_data max_chunk_size overlap <> OutOfFuel /\
    (forall docs, Forall2 has_fields legal_data docs ->
       exists chunks references,
         chunk_documents fuel legal_data max_chunk_size overlap =
         Return (chunks, references)).
Proof.
  intros legal_data max_chunk_size overlap fuel Hmax Hover Hfuel.
  split; [lia |]. split.
  - apply for_loop_total; [lia | lia | done].
  - intros docs Hdocs. eexists _, _. unfold chunk_documents.
    apply for_loop_run; [lia | lia | done | done].
Qed.

Lemma chunk_documents_terminates_witness :
  1 <= 3 /\ 0 <= 1 < 3 /\
  (fuel_for [example_document; mk_document "" "Art.2"] <= 5)%nat /\
  0 < 3 - 1 /\
  chunk_documents 5 [example_document; mk_document "" "Art.2"] 3 1 <> OutOfFuel /\
  (forall docs, Forall2 has_fields [example_document; mk_document "" "Art.2"] docs ->
     exists chunks references,
       chunk_documents 5 [example_document; mk_document "" "Art.2"] 3 1 =
       Return (chunks, references)).
Proof.
  assert (1 <= 3) as Hmax by lia.
  assert (0 <= 1 < 3) as Hover by lia.
  assert (fuel_for [example_document; mk_document "" "Art.2"] <= 5)%nat as Hfuel
    by (vm_compute; lia).
  repeat (split; [assumption |]).
  exact (chunk_documents_terminates [example_document; mk_document "" "Art.2"] 3 1 5
           Hmax Hover Hfuel).
Defined.

(** C4, as the code has it. Nothing checks [overlap] against
    [max_chunk_size]. With [overlap >= max_chunk_size >= 1] no error is
    raised: when every document has at most [max_chunk_size] words the call
    returns them as they are, and when one has more the window start never
    moves forward and no amount of fuel makes the call return. *)
Theorem no_configuration_check :
  forall (fuel : nat) (legal_data : list document) (docs : list (string * string))
         (max_chunk_size overlap : Z),
    Forall2 has_fields legal_data docs ->
    1 <= max_chunk_size ->
    max_chunk_size <= overlap ->
    (Forall (fun d => len (split d.1) <= max_chunk_size) docs ->
     chunk_documents fuel legal_data max_chunk_size overlap = Return (docs.*1, docs.*2)) /\
    (Exists (fun d => max_chunk_size < len (split d.1)) docs ->
     chunk_documents fuel legal_data max_chunk_size overlap = OutOfFuel).
Proof.
  intros fuel legal_data docs max_chunk_size overlap Hdocs Hmax Hover.
  split; intros Hwords; unfold chunk_documents.
  - by rewrite (for_loop_short _ _ _ _ _ _ _ Hdocs Hwords).
  - by apply (for_loop_diverges _ _ _ _ docs).
Qed.

Lemma no_configuration_check_witness :
  Forall2 has_fields [mk_document "a b" "Art.1"] [("a b", "Art.1")] /\
  Forall2 has_fields [example_document] [("a b c d e", "Art.1")] /\
  1 <= 3 /\ 3 <= 5 /\
  (Forall (fun d => len (split d.1) <= 3) [("a b", "Art.1")] /\
   chunk_documents 7 [mk_document "a b" "Art.1"] 3 5 = Return (["a b"], ["Art.1"])) /\
  (Exists (fun d => 3 < len (split d.1)) [("a b c d e", "Art.1")] /\
   chunk_documents 7 [example_document] 3 5 = OutOfFuel).
Proof.
  assert (Forall2 has_fields [mk_document "a b" "Art.1"] [("a b", "Art.1")]) as Hshort
    by (repeat constructor).
  assert (Forall2 has_fields [example_document] [("a b c d e", "Art.1")]) as Hlong
    by (repeat constructor).
  assert (1 <= 3) as Hmax by lia.
  assert (3 <= 5) as Hover by lia.
  assert (Forall (fun d => len (split d.1) <= 3) [("a b", "Art.1")]) as Hwords
    by (repeat constructor; vm_compute; discriminate).
  assert (Exists (fun d => 3 < len (split d.1)) [("a b c d e", "Art.1")]) as Hwords'
    by (constructor; reflexivity).
  repeat (split; [assumption |]). split; (split; [assumption |]).
  - exact (proj1 (no_configuration_check 7 _ _ 3 5 Hshort Hmax Hover) Hwords).
  - exact (proj2 (no_configuration_check 7 _ _ 3 5 Hlong Hmax Hover) Hwords').
Defined.

(** C4, as the specification has it, fails: with [overlap >= max_chunk_size]
    a short document is returned with no error, and a long one makes the
    loop run for ever. *)
Lemma no_configuration_check_counterexample :
  chunk_documents 0 [mk_document "a b" "Art.1"] 3 5 = Return (["a b"], ["Art.1"]) /\
  ~ exists fuel result,
      chunk_documents fuel [example_document] 3 3 = Return result \/
      exists e, chunk_documents fuel [example_document] 3 3 = Raise e.
Proof.
  split; [reflexivity |].
  intros (fuel & result & Hrun).
  assert (chunk_documents fuel [example_document] 3 3 = OutOfFuel) as Hloop.
  { unfold chunk_documents.
    apply (for_loop_diverges _ _ _ _ [("a b c d e", "Art.1")]);
      [repeat constructor | lia | lia | constructor; reflexivity]. }
  rewrite Hloop in Hrun. by destruct Hrun as [|[e ?]].
Qed.

(** ** The index: properties *)

(** C1, as the code has it. For records that have their two fields:
    whatever the parameters, a call of [chunk_documents] that returns gives
    the chunks and the references of one list of pairs, the pairs of the
    documents in the order of the documents, so the two lists have the same
    length and the i-th chunk and the i-th reference come from the same
    document and the same window; and a call of
    [create_improved_faiss_index] that returns gives these two lists and an
    index with one vector for each chunk, the vector at position [i] being
    the row of [chunks[i]] in the embedding of its batch of eight. With
    [0 <= overlap < max_chunk_size] the first call does return, and so does
    the second when there is a document. *)
Theorem chunks_references_index_aligned :
  forall (vec : Type) (embed_batch : list string -> list vec) (hidden_size : Z)
         (legal_data : list document) (docs : list (string * string))
         (max_chunk_size overlap : Z) (fuel : nat),
    (forall b, length (embed_batch b) = length b) ->
    Forall2 has_fields legal_data docs ->
    let pieces := docs ≫= document_pieces max_chunk_size overlap in
    (forall chunks references,
       chunk_documents fuel legal_data max_chunk_size overlap = Return (chunks, references) ->
       chunks = pieces.*1 /\ references = pieces.*2 /\
       length chunks = length references /\
       forall (i : nat) chunk reference,
         chunks !! i = Some chunk -> references !! i = Some reference ->
         exists d, d ∈ docs /\ (chunk, reference) ∈ document_pieces max_chunk_size overlap d) /\
    (forall index chunks references,
       create_improved_faiss_index embed_batch hidden_size fuel legal_data
         max_chunk_size overlap = Return (index, chunks, references) ->
       chunk_documents fuel legal_data max_chunk_size overlap = Return (chunks, references) /\
       length (xb index) = length chunks /\
       forall (i : nat) chunk,
         chunks !! i = Some chunk ->
         exists v,
           xb index !! i = Some v /\
           batch_of chunks 8 i !! (i mod 8)%nat = Some chunk /\
           embed_batch (passage <$> batch_of chunks 8 i) !! (i mod 8)%nat = Some v) /\
    (0 <= overlap < max_chunk_size -> (fuel_for legal_data <= fuel)%nat ->
     chunk_documents fuel legal_data max_chunk_size overlap = Return (pieces.*1, pieces.*2) /\
     (legal_data <> [] ->
      exists index,
        create_improved_faiss_index embed_batch hidden_size fuel legal_data
          max_chunk_size overlap = Return (index, pieces.*1, pieces.*2))).
Proof.
  intros vec embed_batch hidden_size legal_data docs max_chunk_size overlap fuel
    Hrows Hdocs pieces.
  split; [| split].
  - intros chunks references Hrun.
    apply (for_loop_Return _ _ _ _ docs) in Hrun; [| done].
    cbn [app] in Hrun. injection Hrun as -> ->.
    split; [done |]. split; [done |]. split; [by rewrite !length_fmap |].
    apply lookup_pieces.
  - intros index chunks references Hrun.
    apply create_improved_faiss_index_Return in Hrun as [Hchunks Hencode].
    split; [done |].
    apply (encode_Return embed_batch Hrows chunks 8) in Hencode as [Hlen Hlookup]; [| lia].
    split; [done |].
    intros i chunk Hi. pose proof (lookup_lt_Some _ _ _ Hi) as Hlt.
    assert (is_Some (xb index !! i)) as [v Hv] by (apply lookup_lt_is_Some; lia).
    exists v. split; [done |]. split.
    + by rewrite batch_of_lookup by lia.
    + rewrite <- Hv, Hlookup. by case_decide.
  - intros Hover Hfuel.
    assert (chunk_documents fuel legal_data max_chunk_size overlap =
            Return (pieces.*1, pieces.*2)) as Hchunks.
    { unfold chunk_documents.
      by rewrite (for_loop_run max_chunk_size overlap ltac:(lia) ltac:(lia) _ _ docs). }
    split; [done |]. intros Hdata.
    assert (pieces.*1 <> []) as Hpieces.
    { destruct Hdocs as [|item d legal_data docs _ _]; [done |].
      subst pieces. rewrite bind_cons, fmap_app.
      pose proof (document_pieces_nonempty max_chunk_size overlap d Hover).
      destruct (document_pieces max_chunk_size overlap d); done. }
    destruct (encode_rows embed_batch Hrows pieces.*1 8 ltac:(lia) Hpieces)
      as (embeddings & Hencode & _).
    exists (add (new_index hidden_size) embeddings).
    unfold create_improved_faiss_index. rewrite Hchunks. cbn [mbind outcome_bind bind].
    change BATCH_SIZE with (Z.of_nat 8). by rewrite Hencode.
Qed.

Lemma chunks_references_index_aligned_witness :
  (forall b : list string, length (String.length <$> b) = length b) /\
  Forall2 has_fields [example_document] [("a b c d e", "Art.1")] /\
  0 <= 1 < 3 /\
  (fuel_for [example_document] <= 5)%nat /\
  [example_document] <> [] /\
  chunk_documents 5 [example_document] 3 1 =
    Return (["a b c"; "c d e"; "e"],
            ["Art.1 - Фрагмент 1"; "Art.1 - Фрагмент 1"; "Art.1 - Фрагмент 2"]) /\
  length ["a b c"; "c d e"; "e"] =
    length ["Art.1 - Фрагмент 1"; "Art.1 - Фрагмент 1"; "Art.1 - Фрагмент 2"] /\
  exists index : IndexFlatIP nat,
    create_improved_faiss_index (fmap String.length) 1 5 [example_document] 3 1 =
      Return (index, ["a b c"; "c d e"; "e"],
              ["Art.1 - Фрагмент 1"; "Art.1 - Фрагмент 1"; "Art.1 - Фрагмент 2"]) /\
    length (xb index) = length ["a b c"; "c d e"; "e"].
Proof.
  assert (forall b : list string, length (String.length <$> b) = length b) as Hrows
    by (intros b; apply length_fmap).
  assert (Forall2 has_fields [example_document] [("a b c d e", "Art.1")]) as Hdocs
    by (repeat constructor).
  assert (0 <= 1 < 3) as Hover by lia.
  assert (fuel_for [example_document] <= 5)%nat as Hfuel by (vm_compute; lia).
  assert ([example_document] <> []) as Hdata by discriminate.
  repeat (split; [assumption |]).
  destruct (chunks_references_index_aligned nat (fmap String.length) 1
              [example_document] [("a b c d e", "Art.1")] 3 1 5
              Hrows Hdocs) as (Hpartial & Hindexed & Htotal).
  destruct (Htotal Hover Hfuel) as [Hchunks Hcreate].
  destruct (Hcreate Hdata) as [index Hindex].
  split; [exact Hchunks |].
  split; [exact (proj1 (proj2 (proj2 (Hpartial _ _ Hchunks)))) |].
  exists index. split; [exact Hindex |].
  exact (proj1 (proj2 (Hindexed _ _ _ Hindex))).
Defined.

(** C1, as the specification has it, fails for some parameters: with
    [max_chunk_size = 1] and [overlap = 1] a document of two words makes the
    call return nothing at all. *)
Lemma chunks_references_counterexample :
  ~ exists fuel chunks references,
      chunk_documents fuel [mk_document "a b" "Art.1"] 1 1 = Return (chunks, references).
Proof.
  intros (fuel & chunks & references & Hrun).
  assert (chunk_documents fuel [mk_document "a b" "Art.1"] 1 1 = OutOfFuel) as Hloop.
  { unfold chunk_documents.
    apply (for_loop_diverges _ _ _ _ [("a b", "Art.1")]);
      [repeat constructor | lia | lia | constructor; reflexivity]. }
  by rewrite Hloop in Hrun.
Qed.

(** ** The files: properties *)

(** C8, as the code has it. The only load of the source, in the
    verification cell, checks nothing: when the two files exist and the
    data file holds a pickled dict, the cell reports the number of chunks
    and the model name of that dict, whatever its references and whatever
    the index file holds. *)
Theorem verification_cell_reports_without_check :
  forall (vec : Type) (path_join : string -> string -> string)
         (fs : gmap string (file vec)) (output_dir : string) (data : bundle),
    is_Some (fs !! path_join output_dir "legal_index.faiss") ->
    fs !! path_join output_dir "chunks_references.pkl" = Some (PickleFile data) ->
    verification_cell path_join fs output_dir =
    Return {| index_file_exists := true; data_file_exists := true;
              loaded := Some (len (chunks data), embedder_model data) |}.
Proof.
  intros vec path_join fs output_dir data Hindex Hdata.
  unfold verification_cell, exists_, pickle_load.
  rewrite bool_decide_eq_true_2 by done.
  rewrite bool_decide_eq_true_2 by (by rewrite Hdata).
  by rewrite Hdata.
Qed.

Lemma verification_cell_reports_without_check_witness :
  is_Some (example_saved !! example_join "out" "legal_index.faiss") /\
  example_saved !! example_join "out" "chunks_references.pkl" =
    Some (PickleFile {| chunks := ["a b"]; references := ["Art.1"]; embedder_model := "e5" |}) /\
  verification_cell example_join example_saved "out" =
  Return {| index_file_exists := true; data_file_exists := true;
            loaded := Some (1, "e5") |}.
Proof.
  assert (is_Some (example_saved !! example_join "out" "legal_index.faiss")) as Hindex
    by (vm_compute; eauto).
  assert (example_saved !! example_join "out" "chunks_references.pkl" =
          Some (PickleFile {| chunks := ["a b"]; references := ["Art.1"];
                              embedder_model := "e5" |})) as Hdata by reflexivity.
  split; [exact Hindex |]. split; [exact Hdata |].
  exact (verification_cell_reports_without_check nat example_join
           example_saved "out" _ Hindex Hdata).
Defined.

(** C8, as the specification has it, fails: a data file with two chunks
    and one reference, next to an index of three vectors, is loaded and
    reported with no error. *)
Lemma verification_cell_counterexample :
  len (chunks misaligned_bundle) <> len (references misaligned_bundle) /\
  len (chunks misaligned_bundle) <> ntotal misaligned_index /\
  verification_cell example_join misaligned_files "out" =
  Return {| index_file_exists := true; data_file_exists := true;
            loaded := Some (2, "e5") |}.
Proof. split; [| split]; [vm_compute; discriminate .. | reflexivity]. Qed.

(** ** More on the chunker: how calls compose, errors, windows *)

(** X1. Chunking two lists of records one after the other is chunking
    their concatenation: the chunks and references of the first list come
    first, then those of the second, and the first error (or the first loop
    that does not end) is the outcome of the whole call. *)
Theorem chunk_documents_app :
  forall (fuel : nat) (legal_data1 legal_data2 : list document)
         (max_chunk_size overlap : Z),
    chunk_documents fuel (legal_data1 ++ legal_data2) max_chunk_size overlap =
    '(chunks1, references1) ← chunk_documents fuel legal_data1 max_chunk_size overlap;
    '(chunks2, references2) ← chunk_documents fuel legal_data2 max_chunk_size overlap;
    Return (chunks1 ++ chunks2, references1 ++ references2).
Proof. exact chunk_documents_app_eq. Qed.

(** X2. A record without its text raises [KeyError] for the key of the
    text, and a record with a text and no reference raises it for the key
    of the reference, as soon as the records before it have been chunked:
    whatever the parameters and whatever follows, nothing is returned. *)
Theorem missing_field_raises :
  forall (fuel : nat) (legal_data1 legal_data2 : list document) (item : document)
         (max_chunk_size overlap : Z) (st : acc),
    chunk_documents fuel legal_data1 max_chunk_size overlap = Return st ->
    (item !! "Текст" = None ->
     chunk_documents fuel (legal_data1 ++ item :: legal_data2) max_chunk_size overlap =
     Raise (KeyError "Текст")) /\
    (is_Some (item !! "Текст") -> item !! "Ссылка" = None ->
     chunk_documents fuel (legal_data1 ++ item :: legal_data2) max_chunk_size overlap =
     Raise (KeyError "Ссылка")).
Proof.
  intros fuel legal_data1 legal_data2 item max_chunk_size overlap [chunks1 references1] Hrun.
  split.
  - intros Htext. rewrite chunk_documents_app_eq, Hrun. cbn [mbind outcome_bind bind].
    unfold chunk_documents. cbn [for_loop]. unfold for_body, getitem, KEY_TEXT.
    by rewrite Htext.
  - intros [text Htext] Href. rewrite chunk_documents_app_eq, Hrun.
    cbn [mbind outcome_bind bind].
    unfold chunk_documents. cbn [for_loop]. unfold for_body, getitem, KEY_TEXT, KEY_REFERENCE.
    by rewrite Htext, Href.
Qed.

Lemma missing_field_raises_witness :
  chunk_documents 5 [example_document] 3 1 =
    Return (["a b c"; "c d e"; "e"],
            ["Art.1 - Фрагмент 1"; "Art.1 - Фрагмент 1"; "Art.1 - Фрагмент 2"]) /\
  ((<["Ссылка" := "Art.2"]> ∅ : document) !! "Текст" = None /\
   chunk_documents 5 ([example_document] ++ <["Ссылка" := "Art.2"]> ∅ :: [example_document]) 3 1 =
     Raise (KeyError "Текст")) /\
  (is_Some ((<["Текст" := "x y"]> ∅ : document) !! "Текст") /\
   (<["Текст" := "x y"]> ∅ : document) !! "Ссылка" = None /\
   chunk_documents 5 ([example_document] ++ <["Текст" := "x y"]> ∅ :: []) 3 1 =
     Raise (KeyError "Ссылка")).
Proof.
  assert (chunk_documents 5 [example_document] 3 1 =
          Return (["a b c"; "c d e"; "e"],
                  ["Art.1 - Фрагмент 1"; "Art.1 - Фрагмент 1"; "Art.1 - Фрагмент 2"]))
    as Hrun by reflexivity.
  assert ((<["Ссылка" := "Art.2"]> ∅ : document) !! "Текст" = None) as Hno_text
    by reflexivity.
  assert (is_Some ((<["Текст" := "x y"]> ∅ : document) !! "Текст")) as Htext
    by (exists "x y"; reflexivity).
  assert ((<["Текст" := "x y"]> ∅ : document) !! "Ссылка" = None) as Hno_ref
    by reflexivity.
  split; [exact Hrun |]. split.
  - split; [exact Hno_text |].
    exact (proj1 (missing_field_raises 5 [example_document] [example_document] _ 3 1 _ Hrun)
             Hno_text).
  - split; [exact Htext |]. split; [exact Hno_ref |].
    exact (proj2 (missing_field_raises 5 [example_document] [] _ 3 1 _ Hrun)
             Htext Hno_ref).
Defined.

(** X3. With [max_chunk_size = 0] the first record with at least one word
    makes the fragment index divide by zero: the call raises
    [ZeroDivisionError] in the first iteration of its loop, whatever the
    overlap and whatever follows. *)
Theorem zero_chunk_size_raises :
  forall (fuel : nat) (legal_data1 legal_data2 : list document) (item : document)
         (text reference : string) (overlap : Z) (st : acc),
    chunk_documents (S fuel) legal_data1 0 overlap = Return st ->
    has_fields item (text, reference) ->
    0 < len (split text) ->
    chunk_documents (S fuel) (legal_data1 ++ item :: legal_data2) 0 overlap =
    Raise ZeroDivisionError.
Proof.
  intros fuel legal_data1 legal_data2 item text reference overlap [chunks1 references1]
    Hrun Hitem Hwords.
  rewrite chunk_documents_app_eq, Hrun. cbn [mbind outcome_bind bind].
  unfold chunk_documents. cbn [for_loop].
  rewrite (for_body_long _ _ _ _ _ _ _ _ Hitem) by lia.
  by rewrite while_loop_zero_division.
Qed.

Lemma zero_chunk_size_raises_witness :
  chunk_documents 1 [mk_document "" "Art.0"] 0 0 = Return ([""], ["Art.0"]) /\
  has_fields example_document ("a b c d e", "Art.1") /\
  0 < len (split "a b c d e") /\
  chunk_documents 1 ([mk_document "" "Art.0"] ++ example_document :: []) 0 0 =
    Raise ZeroDivisionError.
Proof.
  assert (chunk_documents 1 [mk_document "" "Art.0"] 0 0 = Return ([""], ["Art.0"]))
    as Hrun by reflexivity.
  assert (has_fields example_document ("a b c d e", "Art.1")) as Hitem
    by (split; reflexivity).
  assert (0 < len (split "a b c d e")) as Hwords by reflexivity.
  repeat (split; [assumption |]).
  exact (zero_chunk_size_raises 0 _ [] example_document _ _ 0 _ Hrun Hitem Hwords).
Defined.

Lemma length_window (words : list string) max_chunk_size p :
  0 <= p < len words -> 1 <= max_chunk_size ->
  len (window words max_chunk_size p) = Z.min max_chunk_size (len words - p).
Proof.
  intros Hp Hmax. unfold window, len in *.
  rewrite slice_nonneg by lia. unfold len. rewrite length_take, length_drop. lia.
Qed.

(** The first [step] words of the windows, one window after the other, are
    the words from the first window start on. *)
Lemma windows_cover (words : list string) max_chunk_size step (n : nat) cp :
  0 < step <= max_chunk_size -> 0 <= cp -> len words - cp <= Z.of_nat n ->
  concat ((fun p => take (Z.to_nat step) (window words max_chunk_size p))
            <$> range cp (len words) step) =
  drop (Z.to_nat cp) words.
Proof.
  intros Hstep. revert cp. induction n as [|n IH]; intros cp Hcp Hn.
  - rewrite range_nil by lia. unfold len in Hn. by rewrite drop_ge by lia.
  - destruct (Z.lt_ge_cases cp (len words)) as [Hlt|Hge].
    + rewrite range_cons by lia. cbn [fmap list_fmap concat]. rewrite IH by lia.
      unfold window, len in *. rewrite slice_nonneg by lia. unfold len.
      rewrite (Z.min_l cp) by lia. rewrite take_take.
      replace (Z.to_nat (cp + step)) with (Z.to_nat cp + Z.to_nat step)%nat by lia.
      rewrite <- drop_drop.
      set (rest := drop (Z.to_nat cp) words).
      assert (length rest = (length words - Z.to_nat cp)%nat) as Hrest
        by (subst rest; apply length_drop).
      destruct (decide (Z.to_nat step <= length rest)%nat).
      * replace (_ `min` _)%nat with (Z.to_nat step) by lia. apply take_drop.
      * rewrite (drop_ge rest) by lia. rewrite take_ge by lia. apply app_nil_r.
    + rewrite range_nil by lia. unfold len in Hge. by rewrite drop_ge by lia.
Qed.

Lemma for_body_windows :
  forall (fuel : nat) (max_chunk_size overlap : Z) (chunks references : list string)
         (item : document) (text reference : string),
    has_fields item (text, reference) ->
    max_chunk_size < len (split text) ->
    0 <= overlap < max_chunk_size ->
    (length (split text) <= fuel)%nat ->
    let window_starts := range 0 (len (split text)) (max_chunk_size - overlap) in
    let windows := window (split text) max_chunk_size <$> window_starts in
    for_body fuel max_chunk_size overlap (chunks, references) item =
      Return (chunks ++ (join " " <$> windows),
              references ++ (ref_at reference max_chunk_size <$> window_starts)) /\
    Forall (fun w => 1 <= len w <= max_chunk_size) windows /\
    concat (take (Z.to_nat (max_chunk_size - overlap)) <$> windows) = split text.
Proof.
  intros fuel max_chunk_size overlap chunks references item text reference
    Hitem Hlong Hover Hfuel window_starts windows.
  split; [| split].
  - rewrite (for_body_long _ _ _ _ _ _ _ _ Hitem Hlong).
    rewrite while_loop_run by (unfold len; lia).
    subst windows. by rewrite <- list_fmap_compose.
  - subst windows. apply Forall_fmap, Forall_forall. intros p Hp.
    apply list_elem_of_lookup_1 in Hp as [i Hi].
    apply lookup_range in Hi as [_ Hi]; [| lia]. cbn.
    rewrite length_window by lia. lia.
  - subst windows. rewrite <- list_fmap_compose.
    pose proof (windows_cover (split text) max_chunk_size (max_chunk_size - overlap)
                  (length (split text)) 0 ltac:(lia) ltac:(lia)
                  ltac:(unfold len; lia)) as Hcover.
    by rewrite drop_0 in Hcover.
Qed.

(** X4. Windows of a long document. For a document of more than
    [max_chunk_size] words and [0 <= overlap < max_chunk_size], every chunk
    is the join of a window of at least one and at most [max_chunk_size]
    consecutive words, and no word is lost: the first
    [max_chunk_size - overlap] words of the windows, taken in order, are the
    words of the document. *)
Theorem windows_cover_document :
  forall (fuel : nat) (max_chunk_size overlap : Z) (chunks references : list string)
         (item : document) (text reference : string),
    has_fields item (text, reference) ->
    max_chunk_size < len (split text) ->
    0 <= overlap < max_chunk_size ->
    (length (split text) <= fuel)%nat ->
    let window_starts := range 0 (len (split text)) (max_chunk_size - overlap) in
    let windows := window (split text) max_chunk_size <$> window_starts in
    for_body fuel max_chunk_size overlap (chunks, references) item =
      Return (chunks ++ (join " " <$> windows),
              references ++ (ref_at reference max_chunk_size <$> window_starts)) /\
    Forall (fun w => 1 <= len w <= max_chunk_size) windows /\
    concat (take (Z.to_nat (max_chunk_size - overlap)) <$> windows) = split text.
Proof. exact for_body_windows. Qed.

Lemma windows_cover_document_witness :
  has_fields example_document ("a b c d e", "Art.1") /\
  3 < len (split "a b c d e") /\ 0 <= 1 < 3 /\
  (length (split "a b c d e") <= 5)%nat /\
  for_body 5 3 1 ([], []) example_document =
    Return ([] ++ (join " " <$> [["a"; "b"; "c"]; ["c"; "d"; "e"]; ["e"]]),
            [] ++ (ref_at "Art.1" 3 <$> [0; 2; 4])) /\
  Forall (fun w => 1 <= len w <= 3) [["a"; "b"; "c"]; ["c"; "d"; "e"]; ["e"]] /\
  concat (take (Z.to_nat (3 - 1)) <$> [["a"; "b"; "c"]; ["c"; "d"; "e"]; ["e"]]) =
    ["a"; "b"; "c"; "d"; "e"].
Proof.
  assert (has_fields example_document ("a b c d e", "Art.1")) as Hitem
    by (split; reflexivity).
  assert (3 < len (split "a b c d e")) as Hlong by reflexivity.
  assert (0 <= 1 < 3) as Hover by lia.
  assert (length (split "a b c d e") <= 5)%nat as Hfuel by (vm_compute; lia).
  repeat (split; [assumption |]).
  exact (windows_cover_document 5 3 1 [] [] example_document "a b c d e" "Art.1"
           Hitem Hlong Hover Hfuel).
Defined.

(** X5. With a positive overlap the fragment index does not tell the
    fragments apart: the first two chunks of every long document are
    different windows (they start at words [0] and [step]) and carry the
    same reference, [reference - Фрагмент 1]. *)
Theorem positive_overlap_repeats_reference :
  forall (fuel : nat) (max_chunk_size overlap : Z) (chunks references : list string)
         (item : document) (text reference : string),
    has_fields item (text, reference) ->
    max_chunk_size < len (split text) ->
    0 < overlap < max_chunk_size ->
    (length (split text) <= fuel)%nat ->
    exists cs rs,
      for_body fuel max_chunk_size overlap (chunks, references) item =
        Return (chunks ++ cs, references ++ rs) /\
      cs !! 0%nat = Some (join " " (window (split text) max_chunk_size 0)) /\
      cs !! 1%nat =
        Some (join " " (window (split text) max_chunk_size (max_chunk_size - overlap))) /\
      rs !! 0%nat = Some (reference +:+ " - Фрагмент 1") /\
      rs !! 1%nat = Some (reference +:+ " - Фрагмент 1").
Proof.
  intros fuel max_chunk_size overlap chunks references item text reference
    Hitem Hlong Hover Hfuel.
  eexists _, _. split.
  - rewrite (for_body_long _ _ _ _ _ _ _ _ Hitem Hlong).
    apply while_loop_run; unfold len; lia.
  - assert (0 < max_chunk_size - overlap) as Hstep by lia.
    rewrite (range_cons _ _ Hstep 0) by lia.
    rewrite (range_cons _ _ Hstep (0 + _)) by lia.
    cbn [fmap list_fmap lookup list_lookup]. unfold ref_at, fragment_reference.
    rewrite Z.add_0_l.
    rewrite (Z.div_small (max_chunk_size - overlap)) by lia.
    rewrite Z.div_0_l by lia. done.
Qed.

Lemma positive_overlap_repeats_reference_witness :
  has_fields example_document ("a b c d e", "Art.1") /\
  3 < len (split "a b c d e") /\ 0 < 1 < 3 /\
  (length (split "a b c d e") <= 5)%nat /\
  exists cs rs,
    for_body 5 3 1 ([], []) example_document = Return ([] ++ cs, [] ++ rs) /\
    cs !! 0%nat = Some (join " " (window (split "a b c d e") 3 0)) /\
    cs !! 1%nat = Some (join " " (window (split "a b c d e") 3 (3 - 1))) /\
    rs !! 0%nat = Some ("Art.1" +:+ " - Фрагмент 1") /\
    rs !! 1%nat = Some ("Art.1" +:+ " - Фрагмент 1").
Proof.
  assert (has_fields example_document ("a b c d e", "Art.1")) as Hitem
    by (split; reflexivity).
  assert (3 < len (split "a b c d e")) as Hlong by reflexivity.
  assert (0 < 1 < 3) as Hover by lia.
  assert (length (split "a b c d e") <= 5)%nat as Hfuel by (vm_compute; lia).
  repeat (split; [assumption |]).
  exact (positive_overlap_repeats_reference 5 3 1 [] [] example_document
           "a b c d e" "Art.1" Hitem Hlong Hover Hfuel).
Defined.

(** X6. Without overlap the windows cut the words of a long document into
    consecutive blocks of [max_chunk_size] words (the last one may be
    shorter), and the fragments are numbered 1, 2, 3, ... in order. *)
Theorem zero_overlap_partitions :
  forall (fuel : nat) (max_chunk_size : Z) (chunks references : list string)
         (item : document) (text reference : string),
    has_fields item (text, reference) ->
    1 <= max_chunk_size < len (split text) ->
    (length (split text) <= fuel)%nat ->
    let windows :=
      window (split text) max_chunk_size <$> range 0 (len (split text)) max_chunk_size in
    for_body fuel max_chunk_size 0 (chunks, references) item =
      Return (chunks ++ (join " " <$> windows),
              references ++
                ((fun n => reference +:+ " - Фрагмент " +:+ str_of_int n)
                   <$> seqZ 1 (len windows))) /\
    concat windows = split text.
Proof.
  intros fuel max_chunk_size chunks references item text reference
    Hitem Hlong Hfuel windows.
  destruct (for_body_windows fuel max_chunk_size 0 chunks references item
              text reference Hitem ltac:(lia) ltac:(lia) Hfuel) as (Hrun & Hsize & Hcover).
  rewrite Z.sub_0_r in Hrun, Hsize, Hcover. fold windows in Hrun, Hsize, Hcover.
  split.
  - rewrite Hrun. do 3 f_equal.
    subst windows. unfold len. rewrite length_fmap.
    rewrite length_range, range_count_pos by lia.
    unfold range. rewrite range_count_pos by lia.
    rewrite <- (fmap_add_seqZ 1 0), <- !list_fmap_compose.
    apply list_fmap_ext. intros _ k _. cbn. unfold ref_at, fragment_reference.
    rewrite Z.add_0_l, Z.div_mul by lia. do 3 f_equal. lia.
  - rewrite <- Hcover. f_equal.
    rewrite <- (list_fmap_id windows) at 1. apply Forall_fmap_ext_1.
    eapply Forall_impl; [exact Hsize |]. intros w Hw. cbn in *.
    unfold len in Hw. by rewrite take_ge by lia.
Qed.

Lemma zero_overlap_partitions_witness :
  has_fields example_document ("a b c d e", "Art.1") /\
  1 <= 2 < len (split "a b c d e") /\
  (length (split "a b c d e") <= 5)%nat /\
  for_body 5 2 0 ([], []) example_document =
    Return ([] ++ (join " " <$> [["a"; "b"]; ["c"; "d"]; ["e"]]),
            [] ++ ((fun n => "Art.1" +:+ " - Фрагмент " +:+ str_of_int n) <$> [1; 2; 3])) /\
  concat [["a"; "b"]; ["c"; "d"]; ["e"]] = ["a"; "b"; "c"; "d"; "e"].
Proof.
  assert (has_fields example_document ("a b c d e", "Art.1")) as Hitem
    by (split; reflexivity).
  assert (1 <= 2 < len (split "a b c d e")) as Hlong by (split; reflexivity || lia).
  assert (length (split "a b c d e") <= 5)%nat as Hfuel by (vm_compute; lia).
  repeat (split; [assumption |]).
  exact (zero_overlap_partitions 5 2 [] [] example_document "a b c d e" "Art.1"
           Hitem Hlong Hfuel).
Defined.

(** X7. A negative overlap is accepted and leaves gaps: the call returns,
    but the word at index [max_chunk_size] of a long document is in no
    window, so it is in no chunk. *)
Theorem negative_overlap_skips_words :
  forall (fuel : nat) (max_chunk_size overlap : Z) (chunks references : list string)
         (item : document) (text reference : string),
    has_fields item (text, reference) ->
    1 <= max_chunk_size < len (split text) ->
    overlap < 0 ->
    (length (split text) <= fuel)%nat ->
    let window_starts := range 0 (len (split text)) (max_chunk_size - overlap) in
    for_body fuel max_chunk_size overlap (chunks, references) item =
      Return (chunks ++ (join " " <$> (window (split text) max_chunk_size <$> window_starts)),
              references ++ (ref_at reference max_chunk_size <$> window_starts)) /\
    Forall (fun p => ~ (p <= max_chunk_size < Z.min (p + max_chunk_size) (len (split text))))
      window_starts.
Proof.
  intros fuel max_chunk_size overlap chunks references item text reference
    Hitem Hlong Hover Hfuel window_starts.
  split.
  - rewrite (for_body_long _ _ _ _ _ _ _ _ Hitem) by lia.
    rewrite while_loop_run by (unfold len; lia).
    by rewrite <- list_fmap_compose.
  - apply Forall_forall. intros p Hp.
    apply list_elem_of_lookup_1 in Hp as [i Hi].
    apply lookup_range in Hi as [-> _]; [| lia].
    destruct i as [|i]; [lia | nia].
Qed.

Lemma negative_overlap_skips_words_witness :
  has_fields example_document ("a b c d e", "Art.1") /\
  1 <= 2 < len (split "a b c d e") /\ -1 < 0 /\
  (length (split "a b c d e") <= 5)%nat /\
  for_body 5 2 (-1) ([], []) example_document =
    Return ([] ++ (join " " <$> [["a"; "b"]; ["d"; "e"]]),
            [] ++ (ref_at "Art.1" 2 <$> [0; 3])) /\
  Forall (fun p => ~ (p <= 2 < Z.min (p + 2) (len (split "a b c d e")))) [0; 3].
Proof.
  assert (has_fields example_document ("a b c d e", "Art.1")) as Hitem
    by (split; reflexivity).
  assert (1 <= 2 < len (split "a b c d e")) as Hlong by (split; reflexivity || lia).
  assert (-1 < 0) as Hover by lia.
  assert (length (split "a b c d e") <= 5)%nat as Hfuel by (vm_compute; lia).
  repeat (split; [assumption |]).
  exact (negative_overlap_skips_words 5 2 (-1) [] [] example_document "a b c d e" "Art.1"
           Hitem Hlong Hover Hfuel).
Defined.

Lemma length_pieces_ge max_chunk_size overlap docs :
  0 <= overlap < max_chunk_size ->
  (length docs <= length (docs ≫= document_pieces max_chunk_size overlap))%nat.
Proof.
  intros Hover. induction docs as [|d docs IH]; [done |].
  rewrite bind_cons, length_app. cbn [length].
  pose proof (document_pieces_nonempty max_chunk_size overlap d Hover).
  destruct (document_pieces max_chunk_size overlap d); [done | cbn; lia].
Qed.

(** X8. With [0 <= overlap < max_chunk_size] no document is dropped: the
    call returns at least as many chunks (and as many references) as there
    are records. *)
Theorem no_document_dropped :
  forall (fuel : nat) (legal_data : list document) (docs : list (string * string))
         (max_chunk_size overlap : Z),
    Forall2 has_fields legal_data docs ->
    0 <= overlap < max_chunk_size ->
    (fuel_for legal_data <= fuel)%nat ->
    exists chunks references,
      chunk_documents fuel legal_data max_chunk_size overlap = Return (chunks, references) /\
      (length legal_data <= length chunks)%nat /\
      length references = length chunks.
Proof.
  intros fuel legal_data docs max_chunk_size overlap Hdocs Hover Hfuel.
  eexists _, _. split.
  - unfold chunk_documents.
    apply (for_loop_run max_chunk_size overlap ltac:(lia) ltac:(lia) _ _ docs); done.
  - cbn [app]. rewrite !length_fmap. split; [| done].
    rewrite (Forall2_length _ _ _ Hdocs). by apply length_pieces_ge.
Qed.

Lemma no_document_dropped_witness :
  Forall2 has_fields [example_document; mk_document "" "Art.2"]
    [("a b c d e", "Art.1"); ("", "Art.2")] /\
  0 <= 1 < 3 /\
  (fuel_for [example_document; mk_document "" "Art.2"] <= 5)%nat /\
  exists chunks references,
    chunk_documents 5 [example_document; mk_document "" "Art.2"] 3 1 =
      Return (chunks, references) /\
    (length [example_document; mk_document "" "Art.2"] <= length chunks)%nat /\
    length references = length chunks.
Proof.
  assert (Forall2 has_fields [example_document; mk_document "" "Art.2"]
            [("a b c d e", "Art.1"); ("", "Art.2")]) as Hdocs by (repeat constructor).
  assert (0 <= 1 < 3) as Hover by lia.
  assert (fuel_for [example_document; mk_document "" "Art.2"] <= 5)%nat as Hfuel
    by (vm_compute; lia).
  repeat (split; [assumption |]).
  exact (no_document_dropped 5 _ _ 3 1 Hdocs Hover Hfuel).
Defined.

(** ** [split] and [join] *)

Lemma string_app_cons (x : ascii) (a b : string) :
  String x a +:+ b = String x (a +:+ b).
Proof. reflexivity. Qed.

Lemma string_app_nil_l (a : string) : "" +:+ a = a.
Proof. reflexivity. Qed.

Lemma string_app_assoc (a b c : string) : (a +:+ b) +:+ c = a +:+ (b +:+ c).
Proof.
  induction a as [|x a IH]; [done |]. rewrite !string_app_cons. by f_equal.
Qed.

Lemma string_app_nil_r (a : string) : a +:+ "" = a.
Proof.
  induction a as [|x a IH]; [done |]. rewrite string_app_cons. by f_equal.
Qed.

(** Whether a character starts a whitespace character depends on the
    three bytes from it on, and a space or the end of the text after a
    character never completes one. *)
Lemma space_len_after_word c t s rest :
  space_len (String c (t +:+ s)) = 0%nat -> after_word rest ->
  space_len (String c (t +:+ rest)) = 0%nat.
Proof.
  intros Hs Hrest.
  destruct t as [|c1 [|c2 t]]; rewrite ?string_app_cons, ?string_app_nil_l in *.
  - unfold space_len in *.
    destruct (between 9 13 (Z.of_N (N_of_ascii c)) || between 28 32 (Z.of_N (N_of_ascii c)));
      [done |].
    destruct Hrest as [->|[r ->]]; [done |].
    change (Z.of_N (N_of_ascii " ")) with 32.
    destruct (Z.eqb (Z.of_N (N_of_ascii c)) 194), (Z.eqb (Z.of_N (N_of_ascii c)) 225),
      (Z.eqb (Z.of_N (N_of_ascii c)) 226), (Z.eqb (Z.of_N (N_of_ascii c)) 227);
      destruct r; reflexivity.
  - unfold space_len in *.
    destruct (between 9 13 (Z.of_N (N_of_ascii c)) || between 28 32 (Z.of_N (N_of_ascii c)));
      [done |].
    destruct (Z.eqb (Z.of_N (N_of_ascii c)) 194 &&
              (Z.eqb (Z.of_N (N_of_ascii c1)) 133 || Z.eqb (Z.of_N (N_of_ascii c1)) 160));
      [by destruct s |].
    destruct Hrest as [->|[r ->]]; [done |].
    change (Z.of_N (N_of_ascii " ")) with 32.
    destruct (Z.eqb (Z.of_N (N_of_ascii c)) 225), (Z.eqb (Z.of_N (N_of_ascii c)) 226),
      (Z.eqb (Z.of_N (N_of_ascii c)) 227), (Z.eqb (Z.of_N (N_of_ascii c1)) 154),
      (Z.eqb (Z.of_N (N_of_ascii c1)) 128), (Z.eqb (Z.of_N (N_of_ascii c1)) 129);
      reflexivity.
  - exact Hs.
Qed.

Lemma solid_after_word w s rest : solid w s -> after_word rest -> solid w rest.
Proof.
  intros Hw Hrest. induction w as [|c w IH]; [done |].
  destruct Hw as [Hc Hw]. split; [| by apply IH].
  by apply (space_len_after_word c w s).
Qed.

Lemma solid_snoc cur c s :
  solid cur (String c s) -> space_len (String c s) = 0%nat ->
  solid (cur +:+ String c "") s.
Proof.
  intros Hcur Hc. induction cur as [|x cur IH].
  - cbn. by rewrite string_app_nil_l.
  - destruct Hcur as [Hx Hcur]. rewrite string_app_cons. split; [| by apply IH].
    by rewrite string_app_assoc.
Qed.

(** Reading a stretch with no whitespace in it moves it to the word being
    read. *)
Lemma split_from_solid w rest cur :
  solid w rest -> split_from 0 cur (w +:+ rest) = split_from 0 (cur +:+ w) rest.
Proof.
  revert cur. induction w as [|c w IH]; intros cur Hw.
  - by rewrite string_app_nil_r.
  - destruct Hw as [Hc Hw]. rewrite string_app_cons. cbn [split_from]. rewrite Hc.
    rewrite IH by done. by rewrite string_app_assoc.
Qed.

Lemma flush_words cur s : solid cur s -> Forall is_word (flush cur).
Proof.
  intros Hcur. destruct cur as [|c cur]; [constructor |].
  apply Forall_cons. split; [| constructor]. split; [done |].
  intros rest Hrest. by apply (solid_after_word _ s).
Qed.

(** Every string that [split] returns is a word. *)
Lemma split_from_words s skip cur :
  solid cur s -> (skip <> 0%nat -> cur = "") -> Forall is_word (split_from skip cur s).
Proof.
  revert skip cur. induction s as [|c s IH]; intros skip cur Hcur Hskip.
  - by apply (flush_words _ "").
  - cbn [split_from]. destruct skip as [|k].
    + destruct (space_len (String c s)) as [|k] eqn:Hc.
      * apply IH; [by apply solid_snoc | done].
      * apply Forall_app. split; [by apply (flush_words _ (String c s)) |].
        by apply IH.
    + rewrite (Hskip ltac:(done)). by apply IH.
Qed.

Lemma split_words text : Forall is_word (split text).
Proof. by apply split_from_words. Qed.

(** Joining words with spaces and splitting the result gives the words
    back. *)
Lemma split_join_words ws : Forall is_word ws -> split (join " " ws) = ws.
Proof.
  unfold split, join. induction 1 as [|w ws [Hne Hw] Hws IH]; [done |].
  destruct ws as [|w' ws].
  - cbn [String.concat]. rewrite <- (string_app_nil_r w) at 1.
    rewrite split_from_solid by (apply Hw; by left).
    rewrite string_app_nil_l. by destruct w.
  - change (String.concat " " (w :: w' :: ws))
      with (w +:+ String " " (String.concat " " (w' :: ws))).
    rewrite split_from_solid by (apply Hw; right; eauto).
    rewrite string_app_nil_l. cbn [split_from].
    change (space_len (String " " (String.concat " " (w' :: ws)))) with 1%nat.
    cbn iota. rewrite IH. by destruct w.
Qed.

(** Splitting again the chunk of a window gives the words of the window. *)
Lemma split_chunk_at text max_chunk_size p :
  split (chunk_at (split text) max_chunk_size p) = window (split text) max_chunk_size p.
Proof.
  unfold chunk_at. fold (window (split text) max_chunk_size p).
  apply split_join_words. unfold window, slice.
  apply Forall_take, Forall_drop, split_words.
Qed.

Lemma document_pieces_word_count max_chunk_size overlap d :
  0 <= overlap < max_chunk_size ->
  Forall (fun piece => len (split piece.1) <= max_chunk_size)
    (document_pieces max_chunk_size overlap d).
Proof.
  intros Hover. unfold document_pieces.
  destruct (Z.leb_spec (len (split d.1)) max_chunk_size) as [Hle|Hlt].
  - by repeat constructor.
  - apply Forall_fmap, Forall_forall. intros p Hp.
    apply list_elem_of_lookup_1 in Hp as [i Hi].
    apply lookup_range in Hi as [_ Hi]; [| lia]. cbn.
    rewrite split_chunk_at, length_window by lia. lia.
Qed.

Lemma has_fields_mk_document text reference :
  has_fields (mk_document text reference) (text, reference).
Proof.
  unfold has_fields, mk_document. split.
  - apply lookup_insert_eq.
  - rewrite lookup_insert_ne by done. apply lookup_insert_eq.
Qed.

(** X9. With [0 <= overlap < max_chunk_size] every chunk that the call
    returns has at most [max_chunk_size] words, counted as the chunker
    counts them (by [split]). *)
Theorem chunks_within_size :
  forall (fuel : nat) (legal_data : list document) (docs : list (string * string))
         (max_chunk_size overlap : Z),
    Forall2 has_fields legal_data docs ->
    0 <= overlap < max_chunk_size ->
    (fuel_for legal_data <= fuel)%nat ->
    exists chunks references,
      chunk_documents fuel legal_data max_chunk_size overlap = Return (chunks, references) /\
      Forall (fun chunk => len (split chunk) <= max_chunk_size) chunks.
Proof.
  intros fuel legal_data docs max_chunk_size overlap Hdocs Hover Hfuel.
  eexists _, _. split.
  - unfold chunk_documents.
    apply (for_loop_run max_chunk_size overlap ltac:(lia) ltac:(lia) _ _ docs); done.
  - cbn [app]. apply Forall_fmap, Forall_bind, Forall_forall. intros d _.
    by apply document_pieces_word_count.
Qed.

Lemma chunks_within_size_witness :
  Forall2 has_fields [example_document] [("a b c d e", "Art.1")] /\
  0 <= 1 < 3 /\
  (fuel_for [example_document] <= 5)%nat /\
  exists chunks references,
    chunk_documents 5 [example_document] 3 1 = Return (chunks, references) /\
    Forall (fun chunk => len (split chunk) <= 3) chunks.
Proof.
  assert (Forall2 has_fields [example_document] [("a b c d e", "Art.1")]) as Hdocs
    by (repeat constructor).
  assert (0 <= 1 < 3) as Hover by lia.
  assert (fuel_for [example_document] <= 5)%nat as Hfuel by (vm_compute; lia).
  repeat (split; [assumption |]).
  exact (chunks_within_size 5 _ _ 3 1 Hdocs Hover Hfuel).
Defined.

(** X10. Chunking is stable: the chunks and references that a call
    returns, given back as records to a call with the same
    [max_chunk_size], are returned as they are, whatever the overlap of the
    second call. *)
Theorem chunking_is_stable :
  forall (fuel : nat) (legal_data : list document) (docs : list (string * string))
         (max_chunk_size overlap : Z),
    Forall2 has_fields legal_data docs ->
    0 <= overlap < max_chunk_size ->
    (fuel_for legal_data <= fuel)%nat ->
    exists chunks references,
      chunk_documents fuel legal_data max_chunk_size overlap = Return (chunks, references) /\
      forall (fuel' : nat) (overlap' : Z),
        chunk_documents fuel' (zip_with mk_document chunks references)
          max_chunk_size overlap' = Return (chunks, references).
Proof.
  intros fuel legal_data docs max_chunk_size overlap Hdocs Hover Hfuel.
  eexists _, _. split.
  - unfold chunk_documents.
    apply (for_loop_run max_chunk_size overlap ltac:(lia) ltac:(lia) _ _ docs); done.
  - intros fuel' overlap'. cbn [app].
    set (pieces := docs ≫= document_pieces max_chunk_size overlap).
    assert (zip_with mk_document pieces.*1 pieces.*2 =
            (fun piece => mk_document piece.1 piece.2) <$> pieces) as ->.
    { induction pieces as [|piece pieces IH]; [done |]. cbn. by rewrite IH. }
    unfold chunk_documents. apply (for_loop_short _ _ _ _ pieces).
    + apply Forall2_fmap_l, Forall_Forall2_diag, Forall_forall.
      intros [chunk reference] _. apply has_fields_mk_document.
    + subst pieces. apply Forall_bind, Forall_forall. intros d _.
      by apply document_pieces_word_count.
Qed.

Lemma chunking_is_stable_witness :
  Forall2 has_fields [example_document] [("a b c d e", "Art.1")] /\
  0 <= 1 < 3 /\
  (fuel_for [example_document] <= 5)%nat /\
  exists chunks references,
    chunk_documents 5 [example_document] 3 1 = Return (chunks, references) /\
    forall (fuel' : nat) (overlap' : Z),
      chunk_documents fuel' (zip_with mk_document chunks references) 3 overlap' =
      Return (chunks, references).
Proof.
  assert (Forall2 has_fields [example_document] [("a b c d e", "Art.1")]) as Hdocs
    by (repeat constructor).
  assert (0 <= 1 < 3) as Hover by lia.
  assert (fuel_for [example_document] <= 5)%nat as Hfuel by (vm_compute; lia).
  repeat (split; [assumption |]).
  exact (chunking_is_stable 5 _ _ 3 1 Hdocs Hover Hfuel).
Defined.

(** ** More on [encode] *)

Lemma range_negative_step start stop step :
  step < 0 -> start <= stop -> range start stop step = [].
Proof.
  intros Hstep Hle. unfold range, range_count.
  destruct (Z.ltb_spec 0 step); [lia |]. rewrite seqZ_nil; [done |].
  assert ((start - stop - step - 1) / - step < 1); [| lia].
  apply Z.div_lt_upper_bound; lia.
Qed.

Lemma slice_clamp {A} (l : list A) (a b : Z) :
  0 <= a -> 0 <= b -> slice l a (Z.min b (len l)) = slice l a b.
Proof.
  intros Ha Hb. rewrite !slice_nonneg by (unfold len; lia).
  by rewrite <- Z.min_assoc, Z.min_id.
Qed.

(** Windows without overlap cut a list into consecutive blocks. *)
Lemma windows_partition (words : list string) (size : Z) :
  1 <= size ->
  concat (window words size <$> range 0 (len words) size) = words /\
  Forall (fun w => 1 <= len w <= size) (window words size <$> range 0 (len words) size).
Proof.
  intros Hsize.
  assert (Forall (fun w => 1 <= len w <= size)
            (window words size <$> range 0 (len words) size)) as Hlen.
  { apply Forall_fmap, Forall_forall. intros p Hp.
    apply list_elem_of_lookup_1 in Hp as [i Hi].
    apply lookup_range in Hi as [_ Hi]; [| lia]. cbn.
    rewrite length_window by lia. lia. }
  split; [| done].
  pose proof (windows_cover words size size (length words) 0 ltac:(lia) ltac:(lia)
                ltac:(unfold len; lia)) as Hcover.
  rewrite drop_0 in Hcover. etransitivity; [| exact Hcover]. f_equal.
  apply list_fmap_ext. intros i p Hp.
  apply lookup_range in Hp as [_ Hp]; [| lia].
  pose proof (length_window words size p Hp Hsize) as Hw.
  unfold len in Hw. by rewrite take_ge by lia.
Qed.

Section more_encode_facts.
Context {vec : Type} (embed_batch : list string -> list vec).

Lemma encode_batches texts batch_size :
  0 < batch_size ->
  (fun i => embed_batch (passage <$> slice texts i (i + batch_size)))
    <$> range 0 (len texts) batch_size =
  embed_batch <$> (fmap passage <$> (window texts batch_size <$> range 0 (len texts) batch_size)).
Proof.
  intros Hbs. rewrite <- !list_fmap_compose. apply list_fmap_ext.
  intros i p Hp. apply lookup_range in Hp as [_ Hp]; [| lia]. cbn.
  unfold window. rewrite slice_clamp by lia. done.
Qed.
End more_encode_facts.

(** X11. [encode] returns an array exactly when the batch size is positive
    and there is a text; it raises [ValueError] otherwise: for a zero batch
    size from [range], and for a negative batch size or no text from
    [np.vstack], which then gets no array. *)
Theorem encode_returns_iff :
  forall (vec : Type) (embed_batch : list string -> list vec)
         (texts : list string) (batch_size : Z),
    (0 < batch_size /\ texts <> [] ->
     exists embeddings, encode embed_batch texts batch_size = Return embeddings) /\
    (batch_size = 0 ->
     encode embed_batch texts batch_size =
     Raise (ValueError "range() arg 3 must not be zero")) /\
    (batch_size < 0 \/ (0 < batch_size /\ texts = []) ->
     encode embed_batch texts batch_size =
     Raise (ValueError "need at least one array to concatenate")).
Proof.
  intros vec embed_batch texts batch_size. split; [| split].
  - intros [Hbs Htexts]. unfold encode.
    destruct (Z.eqb_spec batch_size 0); [lia |].
    assert (0 < len texts) by (destruct texts; [done | unfold len; cbn; lia]).
    rewrite range_cons by lia.
    cbn [fmap list_fmap vstack]. eauto.
  - intros ->. done.
  - intros Hbad. unfold encode. destruct (Z.eqb_spec batch_size 0); [lia |].
    destruct Hbad as [Hneg|[Hpos ->]].
    + rewrite range_negative_step by (unfold len; lia). done.
    + change (len (@nil string)) with 0. by rewrite range_same.
Qed.

Lemma encode_returns_iff_witness :
  (0 < 8 /\ ["a"; "b"] <> []) /\
  (exists embeddings, encode example_embed ["a"; "b"] 8 = Return embeddings) /\
  encode example_embed ["a"; "b"] 0 =
    Raise (ValueError "range() arg 3 must not be zero") /\
  (-8 < 0 \/ (0 < -8 /\ ["a"; "b"] = [])) /\
  encode example_embed ["a"; "b"] (-8) =
    Raise (ValueError "need at least one array to concatenate").
Proof.
  assert (0 < 8 /\ ["a"; "b"] <> []) as Hgood by (split; [lia | discriminate]).
  assert (-8 < 0 \/ (0 < -8 /\ ["a"; "b"] = [])) as Hbad by (left; lia).
  split; [exact Hgood |].
  split; [exact (proj1 (encode_returns_iff nat example_embed ["a"; "b"] 8) Hgood) |].
  split; [exact (proj1 (proj2 (encode_returns_iff nat example_embed ["a"; "b"] 0))
                   eq_refl) |].
  split; [exact Hbad |].
  exact (proj2 (proj2 (encode_returns_iff nat example_embed ["a"; "b"] (-8))) Hbad).
Defined.

(** X12. [encode] gives every text to the model exactly once, with the
    prefix [passage: ], in the order of the texts and in batches of at least
    one and at most [batch_size] texts; the array it returns is the arrays
    of the batches, stacked in that order. *)
Theorem encode_batches_partition :
  forall (vec : Type) (embed_batch : list string -> list vec)
         (texts : list string) (batch_size : Z),
    0 < batch_size -> texts <> [] ->
    exists batches : list (list string),
      concat batches = texts /\
      Forall (fun batch => 1 <= len batch <= batch_size) batches /\
      encode embed_batch texts batch_size =
      Return (concat ((fun batch => embed_batch ((fun text => "passage: " +:+ text) <$> batch))
                        <$> batches)).
Proof.
  intros vec embed_batch texts batch_size Hbs Htexts.
  exists (window texts batch_size <$> range 0 (len texts) batch_size).
  destruct (windows_partition texts batch_size ltac:(lia)) as [Hcover Hlen].
  split; [done |]. split; [done |].
  unfold encode. destruct (Z.eqb_spec batch_size 0); [lia |].
  rewrite encode_batches by done. rewrite <- !list_fmap_compose.
  assert (0 < len texts) by (destruct texts; [done | unfold len; cbn; lia]).
  rewrite range_cons by lia. done.
Qed.

Lemma encode_batches_partition_witness :
  0 < 2 /\ ["a"; "b"; "c"] <> [] /\
  exists batches : list (list string),
    concat batches = ["a"; "b"; "c"] /\
    Forall (fun batch => 1 <= len batch <= 2) batches /\
    encode example_embed ["a"; "b"; "c"] 2 =
    Return (concat ((fun batch =>
                       example_embed ((fun text => "passage: " +:+ text) <$> batch))
                      <$> batches)).
Proof.
  assert (0 < 2) as Hbs by lia.
  assert (["a"; "b"; "c"] <> []) as Htexts by discriminate.
  repeat (split; [assumption |]).
  exact (encode_batches_partition nat example_embed ["a"; "b"; "c"] 2 Hbs Htexts).
Defined.

(** X13. When the model gives one row for each text of a batch, [encode]
    returns one row for each text, for every positive batch size, and row
    [i] is the row that [texts[i]] has in the embedding of its batch: row
    [i mod batch_size] of batch [i // batch_size]. *)
Theorem encode_one_row_per_text :
  forall (vec : Type) (embed_batch : list string -> list vec)
         (texts : list string) (batch_size : Z),
    (forall batch, length (embed_batch batch) = length batch) ->
    0 < batch_size -> texts <> [] ->
    exists embeddings,
      encode embed_batch texts batch_size = Return embeddings /\
      length embeddings = length texts /\
      forall (i : nat) text,
        texts !! i = Some text ->
        let batch := batch_of texts (Z.to_nat batch_size) i in
        let row := (i mod Z.to_nat batch_size)%nat in
        exists v,
          embeddings !! i = Some v /\
          batch !! row = Some text /\
          embed_batch (passage <$> batch) !! row = Some v.
Proof.
  intros vec embed_batch texts batch_size Hrows Hbs Htexts.
  destruct (encode_rows embed_batch Hrows texts (Z.to_nat batch_size) ltac:(lia) Htexts)
    as (embeddings & Hrun & Hlen & Hlookup).
  rewrite Z2Nat.id in Hrun by lia.
  exists embeddings. split; [done |]. split; [done |].
  intros i text Hi batch row. pose proof (lookup_lt_Some _ _ _ Hi) as Hlt.
  assert (is_Some (embeddings !! i)) as [v Hv] by (apply lookup_lt_is_Some; lia).
  exists v. split; [done |]. split.
  - subst batch row. by rewrite batch_of_lookup by lia.
  - subst batch row. rewrite <- Hv, Hlookup. by case_decide.
Qed.

Lemma encode_one_row_per_text_witness :
  (forall batch, length (example_embed batch) = length batch) /\
  0 < 2 /\ ["a"; "bb"; "ccc"] <> [] /\
  exists embeddings,
    encode example_embed ["a"; "bb"; "ccc"] 2 = Return embeddings /\
    length embeddings = length ["a"; "bb"; "ccc"] /\
    forall (i : nat) text,
      ["a"; "bb"; "ccc"] !! i = Some text ->
      exists v,
        embeddings !! i = Some v /\
        batch_of ["a"; "bb"; "ccc"] (Z.to_nat 2) i !! (i mod Z.to_nat 2)%nat = Some text /\
        example_embed (passage <$> batch_of ["a"; "bb"; "ccc"] (Z.to_nat 2) i)
          !! (i mod Z.to_nat 2)%nat = Some v.
Proof.
  assert (forall batch, length (example_embed batch) = length batch) as Hrows
    by (intros batch; apply length_fmap).
  assert (0 < 2) as Hbs by lia.
  assert (["a"; "bb"; "ccc"] <> []) as Htexts by discriminate.
  repeat (split; [assumption |]).
  exact (encode_one_row_per_text nat example_embed ["a"; "bb"; "ccc"] 2 Hrows Hbs Htexts).
Defined.

Lemma encode_fits_one_batch :
  forall (vec : Type) (embed_batch : list string -> list vec)
         (texts : list string) (batch_size : Z),
    texts <> [] -> len texts <= batch_size ->
    encode embed_batch texts batch_size =
    Return (embed_batch ((fun text => "passage: " +:+ text) <$> texts)).
Proof.
  intros vec embed_batch texts batch_size Htexts Hfit.
  assert (0 < len texts) by (destruct texts; [done | unfold len; cbn; lia]).
  unfold encode. destruct (Z.eqb_spec batch_size 0); [lia |].
  rewrite range_cons, range_nil by lia. cbn [fmap list_fmap vstack concat].
  rewrite app_nil_r, slice_nonneg by lia.
  rewrite (Z.min_l 0), (Z.min_r (0 + batch_size)) by lia.
  change (Z.to_nat 0) with 0%nat. rewrite drop_0, take_ge by (unfold len; lia). done.
Qed.

(** X14. When the texts fit in one batch the model is called once, on all
    the texts with their prefix, and [encode] returns what it gives. *)
Theorem encode_single_batch :
  forall (vec : Type) (embed_batch : list string -> list vec)
         (texts : list string) (batch_size : Z),
    texts <> [] -> len texts <= batch_size ->
    encode embed_batch texts batch_size =
    Return (embed_batch ((fun text => "passage: " +:+ text) <$> texts)).
Proof. exact encode_fits_one_batch. Qed.

Lemma encode_single_batch_witness :
  ["a"; "bb"] <> [] /\ len ["a"; "bb"] <= 8 /\
  encode example_embed ["a"; "bb"] 8 =
  Return (example_embed ((fun text => "passage: " +:+ text) <$> ["a"; "bb"])).
Proof.
  assert (["a"; "bb"] <> []) as Htexts by discriminate.
  assert (len ["a"; "bb"] <= 8) as Hfit by (vm_compute; discriminate).
  repeat (split; [assumption |]).
  exact (encode_single_batch nat example_embed ["a"; "bb"] 8 Htexts Hfit).
Defined.

(** X15. A text is embedded through different model inputs as a passage
    and as a query: [encode] gives the model [passage: text],
    [encode_queries] gives it [query: text], for one string as for the list
    of that string, and no passage input is ever equal to a query input. *)
Theorem query_and_passage_inputs_differ :
  forall (vec : Type) (embed_batch : list string -> list vec)
         (text : string) (batch_size : Z),
    0 < batch_size ->
    encode embed_batch [text] batch_size = Return (embed_batch ["passage: " +:+ text]) /\
    encode_queries embed_batch (inl text) batch_size = embed_batch ["query: " +:+ text] /\
    encode_queries embed_batch (inr [text]) batch_size = embed_batch ["query: " +:+ text] /\
    forall other : string, "passage: " +:+ text <> "query: " +:+ other.
Proof.
  intros vec embed_batch text batch_size Hbs. split; [| done].
  apply encode_fits_one_batch; [done | unfold len; cbn; lia].
Qed.

Lemma query_and_passage_inputs_differ_witness :
  0 < 8 /\
  encode example_embed ["a"] 8 = Return (example_embed ["passage: " +:+ "a"]) /\
  encode_queries example_embed (inl "a") 8 = example_embed ["query: " +:+ "a"] /\
  encode_queries example_embed (inr ["a"]) 8 = example_embed ["query: " +:+ "a"] /\
  forall other : string, "passage: " +:+ "a" <> "query: " +:+ other.
Proof.
  assert (0 < 8) as Hbs by lia.
  split; [exact Hbs |].
  exact (query_and_passage_inputs_differ nat example_embed "a" 8 Hbs).
Defined.

(** ** Saving, and the cells together *)

Section save_facts.
Context {vec : Type} (path_join : string -> string -> string).
Context (ancestors : string -> list string).
Implicit Types fs : gmap string (file vec).

Lemma exists_true fs path : exists_ fs path = true <-> is_Some (fs !! path).
Proof. unfold exists_. apply bool_decide_eq_true. Qed.

Lemma exists_false fs path : exists_ fs path = false <-> fs !! path = None.
Proof.
  unfold exists_. rewrite bool_decide_eq_false. by rewrite eq_None_not_Some.
Qed.

Lemma mkdir_Return fs path parent fs' :
  mkdir fs path parent = Return fs' ->
  fs !! path = None /\ fs' = <[path := Directory]> fs /\
  exists up, parent = Some up /\ fs !! up = Some Directory.
Proof.
  unfold mkdir. destruct (exists_ fs path) eqn:Hpath; [done |].
  apply exists_false in Hpath. destruct parent as [up|]; [| done].
  destruct (fs !! up) as [[| |]|] eqn:Hup; try done.
  intros [= <-]. eauto.
Qed.

(** What [makedirs] leaves when it returns: the directory is there, the
    files that were there are as they were, and nothing is made outside
    the path and the directories above it. *)
Lemma makedirs_Return fs path ups fs' :
  makedirs fs path ups = Return fs' ->
  fs !! path = None /\
  fs' !! path = Some Directory /\
  (forall p f, fs !! p = Some f -> fs' !! p = Some f) /\
  (forall p, p ∉ path :: ups -> fs' !! p = fs !! p) /\
  (forall p, fs !! p = None -> fs' !! p = None \/ fs' !! p = Some Directory) /\
  (forall up, head ups = Some up -> fs' !! up = Some Directory).
Proof.
  revert path fs'. induction ups as [|up ups IH]; intros path fs' Hrun.
  - cbn in Hrun. by apply mkdir_Return in Hrun as (_ & _ & ? & ? & _).
  - cbn [makedirs] in Hrun.
    destruct (exists_ fs up) eqn:Hhead; cbn [mbind outcome_bind bind] in Hrun.
    + apply mkdir_Return in Hrun as (Hpath & -> & up' & [= <-] & Hdir).
      split; [done |]. split; [apply lookup_insert_eq |].
      split; [| split; [| split]].
      * intros p f Hp. rewrite lookup_insert_ne; [done | congruence].
      * intros p Hp. rewrite lookup_insert_ne; [done |].
        intros ->. apply Hp. by left.
      * intros p Hp. rewrite lookup_insert. case_decide; eauto.
      * intros ? [= <-]. rewrite lookup_insert_ne; [done | congruence].
    + destruct (makedirs fs up ups) as [fs0| |] eqn:Hup;
        cbn [mbind outcome_bind bind] in Hrun; try done.
      apply IH in Hup as (Hnone & Hmade & Hkept & Hframe & Hnew & _).
      apply mkdir_Return in Hrun as (Hpath & -> & up' & [= <-] & Hdir).
      assert (fs !! path = None) as Hpath0.
      { destruct (fs !! path) as [f|] eqn:Hp; [| done].
        apply Hkept in Hp. congruence. }
      split; [done |]. split; [apply lookup_insert_eq |].
      split; [| split; [| split]].
      * intros p f Hp. rewrite lookup_insert_ne; [by apply Hkept | congruence].
      * intros p Hp. rewrite lookup_insert_ne by (intros ->; apply Hp; by left).
        apply Hframe. intros Hin. apply Hp. by right.
      * intros p Hp. rewrite lookup_insert. case_decide; eauto.
      * intros ? [= <-]. rewrite lookup_insert_ne; [done | congruence].
Qed.

Lemma makedirs_run fs path ups :
  fs !! path = None -> NoDup (path :: ups) -> nearest_is_directory fs ups = true ->
  exists fs', makedirs fs path ups = Return fs'.
Proof.
  revert path. induction ups as [|up ups IH]; intros path Hpath Hdup Hnear; [done |].
  apply NoDup_cons in Hdup as [Hfresh Hdup].
  cbn [makedirs nearest_is_directory] in *.
  destruct (exists_ fs up) eqn:Hhead; cbn [mbind outcome_bind bind].
  - apply exists_true in Hhead as [f Hf]. rewrite Hf in Hnear.
    unfold mkdir. rewrite (proj2 (exists_false fs path) Hpath). cbn [head].
    rewrite Hf. destruct f; try done. eauto.
  - apply exists_false in Hhead. rewrite Hhead in Hnear.
    destruct (IH up Hhead Hdup Hnear) as [fs0 Hup]. rewrite Hup.
    cbn [mbind outcome_bind bind].
    apply makedirs_Return in Hup as (_ & Hmade & _ & Hframe & _).
    unfold mkdir.
    rewrite (proj2 (exists_false fs0 path)) by (by rewrite Hframe).
    cbn [head]. rewrite Hmade. eauto.
Qed.

Lemma write_file_Return fs dir path content e fs' :
  write_file fs dir path content e = Return fs' ->
  fs' = <[path := content]> fs /\ fs !! dir = Some Directory /\
  fs !! path <> Some Directory.
Proof.
  unfold write_file.
  destruct (fs !! path) as [[| |]|] eqn:Hpath;
    destruct (fs !! dir) as [[| |]|] eqn:Hdir; try done; by intros [= <-].
Qed.

Lemma write_file_run fs dir path content e :
  fs !! dir = Some Directory -> fs !! path <> Some Directory ->
  write_file fs dir path content e = Return (<[path := content]> fs).
Proof.
  intros Hdir Hpath. unfold write_file. rewrite Hdir.
  by destruct (fs !! path) as [[| |]|].
Qed.

(** The save, when it returns: the tree after the directories were made,
    with the two files written. *)
Lemma save_Return fs index chunks references name out saved :
  save_index_components path_join ancestors fs index chunks references name out =
    Return saved ->
  let index_path := path_join out "legal_index.faiss" in
  let data_path := path_join out "chunks_references.pkl" in
  exists fs1,
    saved = <[data_path := PickleFile {| chunks := chunks; references := references;
                                          embedder_model := name |}]>
              (<[index_path := FaissFile index]> fs1) /\
    fs1 !! out = Some Directory /\
    index_path <> out /\ data_path <> out /\
    fs1 !! index_path <> Some Directory /\
    (forall p f, fs !! p = Some f -> fs1 !! p = Some f) /\
    (forall p, p ∉ out :: ancestors out -> fs1 !! p = fs !! p) /\
    (forall p, fs !! p = None -> fs1 !! p = None \/ fs1 !! p = Some Directory) /\
    (fs !! out = None -> forall up, head (ancestors out) = Some up ->
                                    fs1 !! up = Some Directory).
Proof.
  intros Hrun index_path data_path. unfold save_index_components in Hrun.
  fold index_path data_path in Hrun.
  destruct (if negb (exists_ fs out) then makedirs fs out (ancestors out) else Return fs)
    as [fs1| |] eqn:Hdirs; cbn [mbind outcome_bind bind] in Hrun; try done.
  destruct (write_file fs1 out index_path (FaissFile index) (RuntimeError index_path))
    as [fs2| |] eqn:Hindex; cbn [mbind outcome_bind bind] in Hrun; try done.
  apply write_file_Return in Hindex as (-> & Hout & Hnot).
  apply write_file_Return in Hrun as (-> & Hout2 & Hnot2).
  exists fs1. split; [done |]. split; [done |].
  assert (index_path <> out) as Hio by congruence.
  assert (data_path <> out) as Hdo by congruence.
  split; [done |]. split; [done |]. split; [done |].
  destruct (exists_ fs out) eqn:Hexists; cbn [negb] in Hdirs.
  - injection Hdirs as <-. apply exists_true in Hexists as [f Hf].
    split; [done |]. split; [done |]. split; [eauto |]. congruence.
  - apply makedirs_Return in Hdirs as (_ & _ & Hkept & Hframe & Hnew & Hhead).
    split; [done |]. split; [done |]. split; [done |]. intros _. exact Hhead.
Qed.

Lemma save_run fs index chunks references name out :
  save_ready path_join ancestors fs out ->
  exists saved,
    save_index_components path_join ancestors fs index chunks references name out =
    Return saved.
Proof.
  intros (Hindex & Hdata & Hout). unfold save_index_components.
  set (index_path := path_join out "legal_index.faiss") in *.
  set (data_path := path_join out "chunks_references.pkl") in *.
  assert (exists fs1,
            (if negb (exists_ fs out) then makedirs fs out (ancestors out) else Return fs)
              = Return fs1 /\
            fs1 !! out = Some Directory /\
            fs1 !! index_path <> Some Directory /\
            fs1 !! data_path <> Some Directory) as (fs1 & -> & Hout1 & Hindex1 & Hdata1).
  { destruct Hout as [Hdir|(Hnone & Hnear & Hdup & Hi & Hd)].
    - exists fs. rewrite (proj2 (exists_true fs out)) by eauto. done.
    - rewrite (proj2 (exists_false fs out)) by done. cbn [negb].
      destruct (makedirs_run fs out (ancestors out) Hnone Hdup Hnear) as [fs1 Hrun].
      exists fs1. split; [done |].
      apply makedirs_Return in Hrun as (_ & Hmade & _ & Hframe & _).
      split; [done |]. by rewrite !Hframe by done. }
  cbn [mbind outcome_bind bind].
  rewrite write_file_run by done. cbn [mbind outcome_bind bind].
  rewrite write_file_run; [eauto | |].
  - rewrite lookup_insert_ne; [done | congruence].
  - rewrite lookup_insert. case_decide; congruence.
Qed.
End save_facts.

Lemma save_then_load_facts :
  forall (vec : Type) (path_join : string -> string -> string)
         (ancestors : string -> list string)
         (fs saved : gmap string (file vec)) (index : IndexFlatIP vec)
         (chunks references : list string) (name out : string),
    save_index_components path_join ancestors fs index chunks references name out =
      Return saved ->
    pickle_load saved (path_join out "chunks_references.pkl") =
      Return {| chunks := chunks; references := references; embedder_model := name |} /\
    verification_cell path_join saved out =
      Return {| index_file_exists := true; data_file_exists := true;
                loaded := Some (len chunks, name) |} /\
    saved !! out = Some Directory /\
    (path_join out "legal_index.faiss" <> path_join out "chunks_references.pkl" ->
     saved !! path_join out "legal_index.faiss" = Some (FaissFile index)).
Proof.
  intros vec path_join ancestors fs saved index chunks references name out Hrun.
  apply save_Return in Hrun as (fs1 & -> & Hout & Hio & Hdo & _).
  assert (forall content (m : gmap string (file vec)),
            pickle_load (<[path_join out "chunks_references.pkl" := PickleFile content]> m)
              (path_join out "chunks_references.pkl") = Return content) as Hload.
  { intros content m. unfold pickle_load. by rewrite lookup_insert_eq. }
  split; [apply Hload |]. split; [| split].
  - unfold verification_cell.
    rewrite (proj2 (exists_true _ (path_join out "legal_index.faiss"))).
    + rewrite (proj2 (exists_true _ (path_join out "chunks_references.pkl")))
        by (rewrite lookup_insert_eq; eauto).
      cbn [andb]. by rewrite Hload.
    + rewrite lookup_insert. case_decide; [eauto |]. rewrite lookup_insert_eq. eauto.
  - by rewrite !lookup_insert_ne.
  - intros Hpaths. rewrite lookup_insert_ne by done. apply lookup_insert_eq.
Qed.

(** X16. What is saved is what is loaded. Whenever [save_index_components]
    returns, the data file unpickles to the chunks, the references and the
    model name that were given, in their order, the verification cell
    reports that number of chunks and that name, the output path is a
    directory, and the index file holds the index (the two files having
    different paths). *)
Theorem save_then_load :
  forall (vec : Type) (path_join : string -> string -> string)
         (ancestors : string -> list string)
         (fs saved : gmap string (file vec)) (index : IndexFlatIP vec)
         (chunks references : list string) (name out : string),
    save_index_components path_join ancestors fs index chunks references name out =
      Return saved ->
    pickle_load saved (path_join out "chunks_references.pkl") =
      Return {| chunks := chunks; references := references; embedder_model := name |} /\
    verification_cell path_join saved out =
      Return {| index_file_exists := true; data_file_exists := true;
                loaded := Some (len chunks, name) |} /\
    saved !! out = Some Directory /\
    (path_join out "legal_index.faiss" <> path_join out "chunks_references.pkl" ->
     saved !! path_join out "legal_index.faiss" = Some (FaissFile index)).
Proof. exact save_then_load_facts. Qed.

Lemma save_then_load_witness :
  save_index_components example_join example_ancestors example_root example_index
    ["a b"] ["Art.1"] "e5" "/data/index" =
    Return (<["/data/index/chunks_references.pkl" :=
                PickleFile {| chunks := ["a b"]; references := ["Art.1"];
                              embedder_model := "e5" |}]>
              (<["/data/index/legal_index.faiss" := FaissFile example_index]>
                 (<["/data/index" := Directory]>
                    (<["/data" := Directory]> example_root)))) /\
  example_join "/data/index" "legal_index.faiss" <>
    example_join "/data/index" "chunks_references.pkl" /\
  forall saved,
    save_index_components example_join example_ancestors example_root example_index
      ["a b"] ["Art.1"] "e5" "/data/index" = Return saved ->
    pickle_load saved (example_join "/data/index" "chunks_references.pkl") =
      Return {| chunks := ["a b"]; references := ["Art.1"]; embedder_model := "e5" |} /\
    verification_cell example_join saved "/data/index" =
      Return {| index_file_exists := true; data_file_exists := true;
                loaded := Some (len ["a b"], "e5") |} /\
    saved !! "/data/index" = Some Directory /\
    saved !! example_join "/data/index" "legal_index.faiss" = Some (FaissFile example_index).
Proof.
  assert (example_join "/data/index" "legal_index.faiss" <>
          example_join "/data/index" "chunks_references.pkl") as Hpaths by discriminate.
  split; [reflexivity |]. split; [exact Hpaths |].
  intros saved Hrun.
  destruct (save_then_load nat example_join example_ancestors example_root saved
              example_index ["a b"] ["Art.1"] "e5" "/data/index" Hrun)
    as (Hload & Hcell & Hout & Hindex).
  split; [exact Hload |]. split; [exact Hcell |]. split; [exact Hout |].
  exact (Hindex Hpaths).
Defined.

Lemma create_improved_faiss_index_run {vec} (embed_batch : list string -> list vec)
    hidden_size fuel legal_data docs chunk_size overlap :
  (forall batch, length (embed_batch batch) = length batch) ->
  Forall2 has_fields legal_data docs -> legal_data <> [] ->
  0 <= overlap < chunk_size -> (fuel_for legal_data <= fuel)%nat ->
  let pieces := docs ≫= document_pieces chunk_size overlap in
  exists index,
    create_improved_faiss_index embed_batch hidden_size fuel legal_data chunk_size overlap =
      Return (index, pieces.*1, pieces.*2) /\
    d index = hidden_size /\
    length (xb index) = length pieces.
Proof.
  intros Hrows Hdocs Hdata Hover Hfuel pieces.
  assert (chunk_documents fuel legal_data chunk_size overlap =
          Return (pieces.*1, pieces.*2)) as Hchunks.
  { unfold chunk_documents.
    by rewrite (for_loop_run chunk_size overlap ltac:(lia) ltac:(lia) _ _ docs). }
  assert (pieces.*1 <> []) as Hpieces.
  { destruct Hdocs as [|item doc legal_data docs _ _]; [done |].
    subst pieces. rewrite bind_cons, fmap_app.
    pose proof (document_pieces_nonempty chunk_size overlap doc Hover).
    destruct (document_pieces chunk_size overlap doc); done. }
  destruct (encode_rows embed_batch Hrows pieces.*1 8 ltac:(lia) Hpieces)
    as (embeddings & Hencode & Hlen & _).
  exists (add (new_index hidden_size) embeddings). split; [| split; [done |]].
  - unfold create_improved_faiss_index. rewrite Hchunks. cbn [mbind outcome_bind bind].
    change BATCH_SIZE with (Z.of_nat 8). by rewrite Hencode.
  - cbn. by rewrite Hlen, length_fmap.
Qed.

(** X17. Saving changes no file but its two: whenever
    [save_index_components] returns, every file and directory that was in
    the tree is as it was, except the index file and the data file; outside
    the output directory and the directories above it nothing appears; and
    what appears besides the two files is directories only. *)
Theorem save_keeps_other_files :
  forall (vec : Type) (path_join : string -> string -> string)
         (ancestors : string -> list string)
         (fs saved : gmap string (file vec)) (index : IndexFlatIP vec)
         (chunks references : list string) (name out : string),
    save_index_components path_join ancestors fs index chunks references name out =
      Return saved ->
    forall path,
      path <> path_join out "legal_index.faiss" ->
      path <> path_join out "chunks_references.pkl" ->
      (forall f, fs !! path = Some f -> saved !! path = Some f) /\
      (path ∉ out :: ancestors out -> saved !! path = fs !! path) /\
      (fs !! path = None -> saved !! path = None \/ saved !! path = Some Directory).
Proof.
  intros vec path_join ancestors fs saved index chunks references name out Hrun
    path Hindex Hdata.
  apply save_Return in Hrun as (fs1 & -> & _ & _ & _ & _ & Hkept & Hframe & Hnew & _).
  rewrite !lookup_insert_ne by done. split; [| split]; auto.
Qed.

Lemma save_keeps_other_files_witness :
  save_index_components example_join example_ancestors
    (<["/notes.txt" := PickleFile misaligned_bundle]> example_root) example_index
    ["a b"] ["Art.1"] "e5" "/data/index" =
    Return (<["/data/index/chunks_references.pkl" :=
                PickleFile {| chunks := ["a b"]; references := ["Art.1"];
                              embedder_model := "e5" |}]>
              (<["/data/index/legal_index.faiss" := FaissFile example_index]>
                 (<["/data/index" := Directory]>
                    (<["/data" := Directory]>
                       (<["/notes.txt" := PickleFile misaligned_bundle]> example_root))))) /\
  "/notes.txt" <> example_join "/data/index" "legal_index.faiss" /\
  "/notes.txt" <> example_join "/data/index" "chunks_references.pkl" /\
  forall saved,
    save_index_components example_join example_ancestors
      (<["/notes.txt" := PickleFile misaligned_bundle]> example_root) example_index
      ["a b"] ["Art.1"] "e5" "/data/index" = Return saved ->
    saved !! "/notes.txt" = Some (PickleFile misaligned_bundle).
Proof.
  assert ("/notes.txt" <> example_join "/data/index" "legal_index.faiss") as Hindex
    by discriminate.
  assert ("/notes.txt" <> example_join "/data/index" "chunks_references.pkl") as Hdata
    by discriminate.
  split; [reflexivity |]. split; [exact Hindex |]. split; [exact Hdata |].
  intros saved Hrun.
  exact (proj1 (save_keeps_other_files nat example_join example_ancestors _ saved
                  example_index ["a b"] ["Art.1"] "e5" "/data/index" Hrun
                  "/notes.txt" Hindex Hdata) _ eq_refl).
Defined.

(** X18. Saving the same components again to the same place goes through
    and changes nothing: when a save returned, the same save on the tree it
    left returns that tree. *)
Theorem save_twice :
  forall (vec : Type) (path_join : string -> string -> string)
         (ancestors : string -> list string)
         (fs saved : gmap string (file vec)) (index : IndexFlatIP vec)
         (chunks references : list string) (name out : string),
    save_index_components path_join ancestors fs index chunks references name out =
      Return saved ->
    save_index_components path_join ancestors saved index chunks references name out =
      Return saved.
Proof.
  intros vec path_join ancestors fs saved index chunks references name out Hrun.
  apply save_Return in Hrun as (fs1 & -> & Hout & Hio & Hdo & _).
  set (index_path := path_join out "legal_index.faiss") in *.
  set (data_path := path_join out "chunks_references.pkl") in *.
  set (data := PickleFile _).
  unfold save_index_components. fold index_path data_path.
  rewrite (proj2 (exists_true _ out)) by (rewrite !lookup_insert_ne by done; eauto).
  cbn [negb mbind outcome_bind bind].
  rewrite write_file_run; cycle 1.
  { by rewrite !lookup_insert_ne. }
  { rewrite !lookup_insert. subst data. repeat case_decide; congruence. }
  cbn [mbind outcome_bind bind].
  rewrite write_file_run; cycle 1.
  { by rewrite !lookup_insert_ne. }
  { rewrite !lookup_insert. subst data. repeat case_decide; congruence. }
  f_equal. apply map_eq. intros path. rewrite !lookup_insert.
  by repeat case_decide.
Qed.

Lemma save_twice_witness :
  save_index_components example_join example_ancestors example_root example_index
    ["a b"] ["Art.1"] "e5" "/data/index" =
    Return (<["/data/index/chunks_references.pkl" :=
                PickleFile {| chunks := ["a b"]; references := ["Art.1"];
                              embedder_model := "e5" |}]>
              (<["/data/index/legal_index.faiss" := FaissFile example_index]>
                 (<["/data/index" := Directory]>
                    (<["/data" := Directory]> example_root)))) /\
  forall saved,
    save_index_components example_join example_ancestors example_root example_index
      ["a b"] ["Art.1"] "e5" "/data/index" = Return saved ->
    save_index_components example_join example_ancestors saved example_index
      ["a b"] ["Art.1"] "e5" "/data/index" = Return saved.
Proof.
  split; [reflexivity |]. intros saved Hrun.
  exact (save_twice nat example_join example_ancestors example_root saved
           example_index ["a b"] ["Art.1"] "e5" "/data/index" Hrun).
Defined.

(** X19. The cells together. For a non-empty list of records that have
    their two fields, and a file tree in which the save goes through, the
    indexing cell (default parameters 256 and 50) returns, and leaves a
    bundle that is aligned: the data file holds as many references as
    chunks, the index file holds an index of the model's dimension with one
    vector for each chunk, and the verification cell then reports that
    number of chunks and the name of the model. *)
Theorem indexing_then_verification :
  forall (vec : Type) (embed_batch : list string -> list vec) (hidden_size : Z)
         (path_join : string -> string -> string) (ancestors : string -> list string)
         (fs : gmap string (file vec))
         (legal_data : list document) (docs : list (string * string)) (fuel : nat),
    (forall batch, length (embed_batch batch) = length batch) ->
    Forall2 has_fields legal_data docs -> legal_data <> [] ->
    (fuel_for legal_data <= fuel)%nat ->
    save_ready path_join ancestors fs output_dir ->
    path_join output_dir "legal_index.faiss" <> path_join output_dir "chunks_references.pkl" ->
    exists saved index data,
      indexing_cell embed_batch hidden_size path_join ancestors fuel fs legal_data =
        Return saved /\
      saved !! path_join output_dir "chunks_references.pkl" = Some (PickleFile data) /\
      saved !! path_join output_dir "legal_index.faiss" = Some (FaissFile index) /\
      embedder_model data = "intfloat/multilingual-e5-small" /\
      length (references data) = length (chunks data) /\
      ntotal index = len (chunks data) /\
      d index = hidden_size /\
      verification_cell path_join saved output_dir =
        Return {| index_file_exists := true; data_file_exists := true;
                  loaded := Some (len (chunks data), "intfloat/multilingual-e5-small") |}.
Proof.
  intros vec embed_batch hidden_size path_join ancestors fs legal_data docs fuel
    Hrows Hdocs Hdata Hfuel Hready Hpaths.
  destruct (create_improved_faiss_index_run embed_batch hidden_size fuel legal_data docs
              DEFAULT_MAX_CHUNK_SIZE DEFAULT_OVERLAP Hrows Hdocs Hdata
              ltac:(unfold DEFAULT_MAX_CHUNK_SIZE, DEFAULT_OVERLAP; lia) Hfuel)
    as (index & Hcreate & Hdim & Hlen).
  set (pieces := docs ≫= document_pieces DEFAULT_MAX_CHUNK_SIZE DEFAULT_OVERLAP) in *.
  destruct (save_run path_join ancestors fs index pieces.*1 pieces.*2
              embedding_model_name output_dir Hready) as [saved Hsave].
  destruct (save_then_load_facts vec path_join ancestors fs saved index pieces.*1
              pieces.*2 embedding_model_name output_dir Hsave)
    as (Hload & Hcell & _ & Hindex).
  exists saved, index,
    {| chunks := pieces.*1; references := pieces.*2;
       embedder_model := embedding_model_name |}.
  split.
  { unfold indexing_cell. rewrite Hcreate. cbn [mbind outcome_bind bind]. done. }
  split.
  { unfold pickle_load in Hload.
    destruct (saved !! path_join output_dir "chunks_references.pkl") as [[| |]|];
      try done. by injection Hload as ->. }
  split; [by apply Hindex |].
  cbn [chunks references embedder_model].
  split; [done |]. split; [by rewrite !length_fmap |].
  split; [unfold ntotal, len; by rewrite Hlen, length_fmap |].
  split; [done |]. exact Hcell.
Qed.

Lemma indexing_then_verification_witness :
  (forall batch, length (example_embed batch) = length batch) /\
  Forall2 has_fields [example_document] [("a b c d e", "Art.1")] /\
  [example_document] <> [] /\
  (fuel_for [example_document] <= 5)%nat /\
  save_ready example_join example_ancestors example_output_tree output_dir /\
  example_join output_dir "legal_index.faiss" <>
    example_join output_dir "chunks_references.pkl" /\
  exists saved index data,
    indexing_cell example_embed 1 example_join example_ancestors 5 example_output_tree
      [example_document] = Return saved /\
    saved !! example_join output_dir "chunks_references.pkl" = Some (PickleFile data) /\
    saved !! example_join output_dir "legal_index.faiss" = Some (FaissFile index) /\
    embedder_model data = "intfloat/multilingual-e5-small" /\
    length (references data) = length (chunks data) /\
    ntotal index = len (chunks data) /\
    d index = 1 /\
    verification_cell example_join saved output_dir =
      Return {| index_file_exists := true; data_file_exists := true;
                loaded := Some (len (chunks data), "intfloat/multilingual-e5-small") |}.
Proof.
  assert (forall batch, length (example_embed batch) = length batch) as Hrows
    by (intros batch; apply length_fmap).
  assert (Forall2 has_fields [example_document] [("a b c d e", "Art.1")]) as Hdocs
    by (repeat constructor).
  assert ([example_document] <> []) as Hdata by discriminate.
  assert (fuel_for [example_document] <= 5)%nat as Hfuel by (vm_compute; lia).
  assert (save_ready example_join example_ancestors example_output_tree output_dir)
    as Hready by (split; [done |]; split; [done |]; by left).
  assert (example_join output_dir "legal_index.faiss" <>
          example_join output_dir "chunks_references.pkl") as Hpaths by discriminate.
  repeat (split; [assumption |]).
  exact (indexing_then_verification nat example_embed 1 example_join example_ancestors
           example_output_tree [example_document] [("a b c d e", "Art.1")] 5
           Hrows Hdocs Hdata Hfuel Hready Hpaths).
Defined.

(** X20. An empty list of records builds nothing: the chunker returns two
    empty lists, [encode] then has no array to stack, so
    [create_improved_faiss_index] raises [ValueError], and the indexing
    cell raises it too, before anything is saved. *)
Theorem empty_corpus_raises :
  forall (vec : Type) (embed_batch : list string -> list vec) (hidden_size : Z)
         (path_join : string -> string -> string) (ancestors : string -> list string)
         (fs : gmap string (file vec)) (fuel : nat) (chunk_size overlap : Z),
    chunk_documents fuel [] chunk_size overlap = Return ([], []) /\
    create_improved_faiss_index embed_batch hidden_size fuel [] chunk_size overlap =
      Raise (ValueError "need at least one array to concatenate") /\
    indexing_cell embed_batch hidden_size path_join ancestors fuel fs [] =
      Raise (ValueError "need at least one array to concatenate").
Proof. done. Qed.

(** X21. A chunk that adds nothing. When a window already reaches the last
    word and the next window start is still below the number of words, the
    loop emits one more chunk, and that chunk is the end of the previous
    one: its words are the previous window without its first
    [max_chunk_size - overlap] words. *)
Theorem redundant_tail_chunk :
  forall (fuel : nat) (max_chunk_size overlap : Z) (chunks references : list string)
         (item : document) (text reference : string) (i : nat),
    has_fields item (text, reference) ->
    max_chunk_size < len (split text) ->
    0 <= overlap < max_chunk_size ->
    (length (split text) <= fuel)%nat ->
    let step := max_chunk_size - overlap in
    let p := Z.of_nat i * step in
    p + step < len (split text) <= p + max_chunk_size ->
    exists cs rs,
      for_body fuel max_chunk_size overlap (chunks, references) item =
        Return (chunks ++ cs, references ++ rs) /\
      cs !! i = Some (join " " (window (split text) max_chunk_size p)) /\
      cs !! S i =
        Some (join " " (drop (Z.to_nat step) (window (split text) max_chunk_size p))).
Proof.
  intros fuel max_chunk_size overlap chunks references item text reference i
    Hitem Hlong Hover Hfuel step p Hp.
  eexists _, _. split.
  - rewrite (for_body_long _ _ _ _ _ _ _ _ Hitem Hlong).
    apply while_loop_run; unfold len; lia.
  - assert (0 < step) as Hstep by (subst step; lia).
    assert (0 <= p) as Hp0 by (subst p; nia).
    assert (Z.of_nat (S i) * step = p + step) as Hnext by (subst p; lia).
    rewrite !list_lookup_fmap.
    rewrite (lookup_range_Some 0 _ _ i), (lookup_range_Some 0 _ _ (S i))
      by (fold step; fold p; lia).
    cbn [fmap option_fmap option_map]. rewrite !Z.add_0_l. fold step. fold p.
    split; [done |]. do 2 f_equal. rewrite Hnext.
    unfold chunk_at. fold (window (split text) max_chunk_size (p + step)).
    clearbody p step.
    unfold window. rewrite !slice_nonneg by lia.
    unfold len in *. rewrite !Z.min_r, !Z.min_l by lia.
    rewrite !take_ge by (rewrite length_drop; lia).
    rewrite drop_drop.
    by replace (Z.to_nat (p `min` Z.of_nat (length (split text))) + Z.to_nat step)%nat
      with (Z.to_nat (p + step)) by lia.
Qed.

Lemma redundant_tail_chunk_witness :
  has_fields example_document ("a b c d e", "Art.1") /\
  3 < len (split "a b c d e") /\ 0 <= 1 < 3 /\
  (length (split "a b c d e") <= 5)%nat /\
  Z.of_nat 1 * (3 - 1) + (3 - 1) < len (split "a b c d e") <= Z.of_nat 1 * (3 - 1) + 3 /\
  exists cs rs,
    for_body 5 3 1 ([], []) example_document = Return ([] ++ cs, [] ++ rs) /\
    cs !! 1%nat = Some (join " " (window (split "a b c d e") 3 (Z.of_nat 1 * (3 - 1)))) /\
    cs !! 2%nat =
      Some (join " " (drop (Z.to_nat (3 - 1))
                        (window (split "a b c d e") 3 (Z.of_nat 1 * (3 - 1))))).
Proof.
  assert (has_fields example_document ("a b c d e", "Art.1")) as Hitem
    by (split; reflexivity).
  assert (3 < len (split "a b c d e")) as Hlong by reflexivity.
  assert (0 <= 1 < 3) as Hover by lia.
  assert (length (split "a b c d e") <= 5)%nat as Hfuel by (vm_compute; lia).
  assert (Z.of_nat 1 * (3 - 1) + (3 - 1) < len (split "a b c d e") <= Z.of_nat 1 * (3 - 1) + 3)
    as Hp by (vm_compute; split; [reflexivity | discriminate]).
  repeat (split; [assumption |]).
  exact (redundant_tail_chunk 5 3 1 [] [] example_document "a b c d e" "Art.1" 1
           Hitem Hlong Hover Hfuel Hp).
Defined.



(** X23. Where the save goes through. In a tree where neither file path is
    a directory and the output directory is there, or is missing below a
    directory, [save_index_components] returns; the output path is then a
    directory, and when it was missing the directory above it is one too:
    [os.makedirs] makes the directories that are missing on the way. *)
Theorem save_goes_through :
  forall (vec : Type) (path_join : string -> string -> string)
         (ancestors : string -> list string)
         (fs : gmap string (file vec)) (index : IndexFlatIP vec)
         (chunks references : list string) (name out : string),
    save_ready path_join ancestors fs out ->
    exists saved,
      save_index_components path_join ancestors fs index chunks references name out =
        Return saved /\
      saved !! out = Some Directory /\
      (fs !! out = None ->
       forall up, head (ancestors out) = Some up -> saved !! up = Some Directory).
Proof.
  intros vec path_join ancestors fs index chunks references name out Hready.
  destruct (save_run path_join ancestors fs index chunks references name out Hready)
    as [saved Hrun].
  exists saved. split; [done |].
  apply save_Return in Hrun as (fs1 & -> & Hout & Hio & Hdo & _ & _ & _ & _ & Hup).
  split; [by rewrite !lookup_insert_ne |].
  intros Hnone up Hhead.
  destruct Hready as (_ & _ & [Hdir|(_ & _ & _ & Hi & Hd)]); [congruence |].
  assert (up ∈ ancestors out) as Hin.
  { destruct (ancestors out) as [|up' ups]; [done |]. injection Hhead as ->. by left. }
  rewrite !lookup_insert_ne; [by apply Hup | |].
  - intros <-. apply Hi. by right.
  - intros <-. apply Hd. by right.
Qed.

Lemma save_goes_through_witness :
  save_ready example_join example_ancestors example_root "/data/index" /\
  exists saved,
    save_index_components example_join example_ancestors example_root example_index
      ["a b"] ["Art.1"] "e5" "/data/index" = Return saved /\
    saved !! "/data/index" = Some Directory /\
    saved !! "/data" = Some Directory.
Proof.
  assert (save_ready example_join example_ancestors example_root "/data/index") as Hready.
  { split; [done |]. split; [done |]. right.
    split; [reflexivity |]. split; [reflexivity |].
    split; [| split].
    - change (example_ancestors "/data/index") with ["/data"; "/"].
      repeat constructor; rewrite ?elem_of_cons, ?elem_of_nil;
        intros H; repeat destruct H as [H|H]; discriminate || done.
    - change (example_ancestors "/data/index") with ["/data"; "/"].
      rewrite !elem_of_cons, elem_of_nil.
      intros H; repeat destruct H as [H|H]; discriminate || done.
    - change (example_ancestors "/data/index") with ["/data"; "/"].
      rewrite !elem_of_cons, elem_of_nil.
      intros H; repeat destruct H as [H|H]; discriminate || done. }
  split; [exact Hready |].
  destruct (save_goes_through nat example_join example_ancestors example_root
              example_index ["a b"] ["Art.1"] "e5" "/data/index" Hready)
    as (saved & Hrun & Hout & Hup).
  exists saved. split; [exact Hrun |]. split; [exact Hout |].
  exact (Hup eq_refl "/data" eq_refl).
Defined.
